(** * cdk-ecr-deployment: the image deployment handler (lambda/main.go)

    A shallow embedding of the Go handler that copies a container image
    from a source reference to a destination reference, invoked either as
    a CloudFormation custom resource or as a CodePipeline job.

    Everything the handler reaches outside of its own code (the process
    environment, AWS Secrets Manager, encoding/json, the containers/image
    library, the CodePipeline client) is gathered in the record [World];
    every call that acts on the outside is written to a trace of
    [Effect]s, so that "how often was X called" is a statement about
    that trace. *)

From stdpp Require Import base strings list gmap pretty.

(** ** Data model *)

(** [Creds] (lambda/utils.go), the wire shape
    [{ plainText?, secretArn?, usernameKey?, passwordKey? }].  Go decodes
    an absent field to the empty string, and the handler tests presence
    with [!= ""]. *)
Record Creds := mkCreds {
  PlainText : string;
  SecretArn : string;
  UsernameKey : string;
  PasswordKey : string
}.

(** [UserParameters] (lambda/utils.go): the deployment request. *)
Record UserParameters := mkUserParameters {
  SrcImage : string;
  SrcCreds : Creds;
  DestImage : string;
  DestCreds : Creds
}.

Definition noCreds : Creds := mkCreds "" "" "" "".

(** The zero value of [UserParameters], what [var userParameters
    UserParameters] holds before decoding. *)
Definition zeroUserParameters : UserParameters :=
  mkUserParameters "" noCreds "" noCreds.

(** Go's [error] values.  [Error] is the text [err.Error()] returns;
    [kind] records which step produced the value. *)
Inductive ResolutionKind := SecretNotFound | MalformedSecret.

Inductive ErrorKind :=
| ResolutionError (k : ResolutionKind)  (* sm.GetSecret *)
| ReferenceError                        (* alltransports.ParseImageName *)
| ContextError                          (* ImageOpts.NewSystemContext *)
| PolicyError                           (* signature.NewPolicyContext *)
| CopyError.                            (* fmt.Errorf("copy image failed: %s") *)

Record error := mkError {
  kind : ErrorKind;
  Error : string
}.

#[global] Instance ResolutionKind_eq_dec : EqDecision ResolutionKind.
Proof. solve_decision. Defined.
#[global] Instance ErrorKind_eq_dec : EqDecision ErrorKind.
Proof. solve_decision. Defined.

(** containers/image values, opaque to the handler: a parsed reference
    remembers the name it was parsed from, a system context the options
    it was built from. *)
Record ImageReference := ParsedReference { refName : string }.

(** [ImageOpts] (lambda/utils.go, a file outside the sources read here): the
    image name given to [NewImageOpts] and the credential given to
    [SetCreds], as [handleImages] uses them. *)
Record ImageOpts := mkImageOpts {
  optsUri : string;
  optsCreds : string
}.

Record SystemContext := BuiltContext { ctxOpts : ImageOpts }.

(** [cfn.Event]: [RequestType] is a Go string type; the properties are
    kept as the JSON text [json.Marshal(event.ResourceProperties)]
    yields. *)
Record Event := mkEvent {
  RequestType : string;
  PhysicalResourceID : string;
  ResourceProperties : string
}.

Definition RequestCreate : string := "Create".
Definition RequestUpdate : string := "Update".
Definition RequestDelete : string := "Delete".

(** [events.CodePipelineJobEvent], reduced to the two fields the handler
    reads: [CodePipelineJob.ID] and
    [CodePipelineJob.Data.ActionConfiguration.Configuration.UserParameters]. *)
Record CodePipelineJobEvent := mkJobEvent {
  JobID : string;
  JobUserParameters : string
}.

(** ** The outside world *)

(** One field per external call of the handler.  A field of type
    [... -> option string] answers [None] for success and [Some text]
    for an error with that text. *)
Record World := mkWorld {
  (* os.Getenv: an unset variable reads as the empty string *)
  environ : gmap string string;
  (* AWS Secrets Manager GetSecretValue: error text, or the secret string *)
  secretValue : string -> string + string;
  (* json.Unmarshal of a secret string into a map of strings *)
  unmarshalSecret : string -> string + gmap string string;
  (* json.Unmarshal into UserParameters: the structure as the decoder
     leaves it, and the decoder's error, if any *)
  unmarshalUserParameters : string -> UserParameters * option string;
  (* the Lambda runtime's decoding of an invocation payload *)
  unmarshalEvent : string -> Event;
  unmarshalJobEvent : string -> CodePipelineJobEvent;
  (* alltransports.ParseImageName *)
  parseImageNameError : string -> option string;
  (* ImageOpts.NewSystemContext *)
  systemContextError : ImageOpts -> option string;
  (* signature.NewPolicyContext *)
  policyContextError : option string;
  (* copy.Image(ctx, policy, destRef, srcRef, {DestinationCtx, SourceCtx}) *)
  copyImageError :
    ImageReference -> ImageReference -> SystemContext -> SystemContext ->
    option string;
  (* codepipeline.PutJobSuccessResult / PutJobFailureResult *)
  putJobSuccessResultError : string -> string -> option string;
  putJobFailureResultError : string -> string -> option string;
  (* Dumps (lambda/utils.go) and fmt's %v of UserParameters *)
  DumpsEvent : Event -> string;
  DumpsJobEvent : CodePipelineJobEvent -> string;
  formatUserParameters : UserParameters -> string
}.

(** ** Effects and the trace monad *)

Inductive Effect :=
| Getenv (name : string)
| Log (line : string)
| SecretRead (secretId : string)
| CopyImage (destRef srcRef : ImageReference) (destCtx srcCtx : SystemContext)
| PolicyDestroy
| PutJobSuccessResult (jobId summary : string)
| PutJobFailureResult (jobId message : string).

Definition Trace := list Effect.

(** A computation yields its value and the effects it performed, in
    order. *)
Definition M (A : Type) : Type := (A * Trace)%type.

Definition ret {A} (a : A) : M A := (a, []).

Definition bind {A B} (m : M A) (f : A -> M B) : M B :=
  ((f m.1).1, m.2 ++ (f m.1).2).

Definition tell (e : Effect) : M unit := (tt, [e]).

Definition value {A} (m : M A) : A := m.1.
Definition trace {A} (m : M A) : Trace := m.2.

Declare Scope go_scope.
Delimit Scope go_scope with go.

Notation "x <- c ; k" := (bind c (fun x => k))
  (at level 100, c at next level, right associativity) : go_scope.
Notation "c ;; k" := (bind c (fun _ => k))
  (at level 100, right associativity) : go_scope.

(** [v, err := c; if err != nil { return err }] inside a function whose
    only result is an [error]. *)
Definition orReturn {A} (c : M (error + A)) (k : A -> M (option error))
  : M (option error) :=
  bind c (fun r => match r with
                   | inl e => ret (Some e)
                   | inr a => k a
                   end).

Notation "x <-? c ; k" := (orReturn c (fun x => k))
  (at level 100, c at next level, right associativity) : go_scope.

Open Scope go_scope.

(** Effect classifiers, for counting calls in a trace. *)
Definition isSecretRead (e : Effect) : bool :=
  match e with SecretRead _ => true | _ => false end.
Definition isCopyImage (e : Effect) : bool :=
  match e with CopyImage _ _ _ _ => true | _ => false end.
Definition isPutJobSuccess (e : Effect) : bool :=
  match e with PutJobSuccessResult _ _ => true | _ => false end.
Definition isPutJobFailure (e : Effect) : bool :=
  match e with PutJobFailureResult _ _ => true | _ => false end.
Definition isGetenv (name : string) (e : Effect) : bool :=
  match e with Getenv n => bool_decide (n = name) | _ => false end.

Definition calls (p : Effect -> bool) (t : Trace) : nat :=
  length (List.filter p t).

(** ** The handler *)

Section Handler.

Variable W : World.

Definition log (line : string) : M unit := tell (Log line).

Definition os_Getenv (name : string) : M string :=
  tell (Getenv name) ;;
  ret (default "" (environ W !! name)).

(** *** Credential resolution *)

(** Modelled from the spec: the split path of [GetSecret] (lambda/utils.go,
    a file outside the sources read here).  Section 4.1, item 1: the retrieved
    value must be a key-value map holding both named keys, otherwise the
    descriptor is a [MalformedSecret]; the two named entries are joined
    as [<username-value>:<password-value>]. *)
Definition splitSecret (creds : Creds) (raw : string) : error + string :=
  match unmarshalSecret W raw with
  | inl text => inl (mkError (ResolutionError MalformedSecret) text)
  | inr m =>
      match m !! UsernameKey creds, m !! PasswordKey creds with
      | Some u, Some p => inr (u +:+ ":" +:+ p)
      | None, _ =>
          inl (mkError (ResolutionError MalformedSecret)
                 ("missing key " +:+ UsernameKey creds))
      | _, None =>
          inl (mkError (ResolutionError MalformedSecret)
                 ("missing key " +:+ PasswordKey creds))
      end
  end.

(** Modelled from the spec: [SecretsManager.GetSecret] lives in
    lambda/utils.go, a file outside the sources read here.  Section
    4.1: one read of the secret store per descriptor; a failed read is
    [SecretNotFound]; with both key names present the secret must be a
    key-value map holding both keys ([MalformedSecret] otherwise) and the
    result is [<username-value>:<password-value>]; with a secret
    identifier alone the raw value is returned unmodified.  The spec
    fixes the kind of each error, not its text. *)
Definition GetSecret (creds : Creds) : M (error + string) :=
  tell (SecretRead (SecretArn creds)) ;;
  match secretValue W (SecretArn creds) with
  | inl text => ret (inl (mkError (ResolutionError SecretNotFound) text))
  | inr raw =>
      if decide (UsernameKey creds <> "" /\ PasswordKey creds <> "")
      then ret (splitSecret creds raw)
      else ret (inr raw)
  end.

(** [func (sm *SecretsManager) parseCreds(creds Creds) (string, error)] *)
Definition parseCreds (creds : Creds) : M (error + string) :=
  if decide (SecretArn creds <> "") then
    GetSecret creds
  else if decide (PlainText creds <> "") then
    ret (inr (PlainText creds))
  else
    ret (inr "").

(** *** Building the two sides *)

(** [alltransports.ParseImageName]: the library's verdict on the name. *)
Definition ParseImageName (name : string) : error + ImageReference :=
  match parseImageNameError W name with
  | Some text => inl (mkError ReferenceError text)
  | None => inr (ParsedReference name)
  end.

(** [NewImageOpts], [SetCreds] and [NewSystemContext] belong to
    lambda/utils.go; what [NewSystemContext] answers is a parameter of
    the world. *)
Definition NewImageOpts (uri : string) : ImageOpts := mkImageOpts uri "".

Definition SetCreds (creds : string) (opts : ImageOpts) : ImageOpts :=
  mkImageOpts (optsUri opts) creds.

Definition NewSystemContext (opts : ImageOpts) : error + SystemContext :=
  match systemContextError W opts with
  | Some text => inl (mkError ContextError text)
  | None => inr (BuiltContext opts)
  end.

(** [newPolicyContext]: the policy accepts anything; only the library
    call can fail. *)
Definition newPolicyContext : error + unit :=
  match policyContextError W with
  | Some text => inl (mkError PolicyError text)
  | None => inr tt
  end.

(** [copy.Image]: one call of the engine; the answer is the engine's
    error text, if it failed. *)
Definition copy_Image (destRef srcRef : ImageReference)
    (destCtx srcCtx : SystemContext) : M (option string) :=
  tell (CopyImage destRef srcRef destCtx srcCtx) ;;
  ret (copyImageError W destRef srcRef destCtx srcCtx).

(** *** The copy orchestration *)

(** [func handleImages(userParameters UserParameters) error].  The
    deferred [policyContext.Destroy()] runs when the function returns,
    that is after the engine call on both outcomes. *)
Definition handleImages (userParameters : UserParameters) : M (option error) :=
  srcCreds <-? parseCreds (SrcCreds userParameters) ;
  destCreds <-? parseCreds (DestCreds userParameters) ;
  log ("SrcImage: " +:+ SrcImage userParameters +:+
       " DestImage: " +:+ DestImage userParameters) ;;
  srcRef <-? ret (ParseImageName (SrcImage userParameters)) ;
  destRef <-? ret (ParseImageName (DestImage userParameters)) ;
  srcCtx <-? ret (NewSystemContext
                    (SetCreds srcCreds (NewImageOpts (SrcImage userParameters)))) ;
  destCtx <-? ret (NewSystemContext
                     (SetCreds destCreds (NewImageOpts (DestImage userParameters)))) ;
  _ <-? ret newPolicyContext ;
  err <- copy_Image destRef srcRef destCtx srcCtx ;
  tell PolicyDestroy ;;
  match err with
  | Some text => ret (Some (mkError CopyError ("copy image failed: " +:+ text)))
  | None => ret None
  end.

(** *** The provisioning flow *)

(** [func cfnHandler(ctx, event cfn.Event) (physicalResourceID string,
    data map[string]interface{}, err error)].  The error of
    [json.Unmarshal] is dropped: only the structure it leaves is used. *)
Definition cfnHandler (event : Event)
  : M (string * gmap string string * option error) :=
  let physicalResourceID := PhysicalResourceID event in
  let data : gmap string string := ∅ in
  log ("Event: " +:+ DumpsEvent W event) ;;
  if decide (RequestType event = RequestDelete) then
    ret (physicalResourceID, data, None)
  else if decide (RequestType event = RequestCreate \/
                  RequestType event = RequestUpdate) then
    log ("Event: " +:+ DumpsEvent W event) ;;
    let userParameters :=
      (unmarshalUserParameters W (ResourceProperties event)).1 in
    err <- handleImages userParameters ;
    match err with
    | Some e => ret (physicalResourceID, data, Some e)
    | None => ret (physicalResourceID, data, None)
    end
  else
    ret (physicalResourceID, data, None).

(** *** The pipeline flow *)

Definition PutJobSuccess (jobId summary : string) : M (option string) :=
  tell (PutJobSuccessResult jobId summary) ;;
  ret (putJobSuccessResultError W jobId summary).

Definition PutJobFailure (jobId message : string) : M (option string) :=
  tell (PutJobFailureResult jobId message) ;;
  ret (putJobFailureResultError W jobId message).

Definition successSummary (userParameters : UserParameters) : string :=
  "Copied image " +:+ SrcImage userParameters +:+
  " to " +:+ DestImage userParameters.

(** [func codePipelineHandler(ctx, event events.CodePipelineJobEvent)]:
    no result value.  The error of [config.LoadDefaultConfig] only feeds
    a discarded [fmt.Errorf]; the error of [json.Unmarshal] is dropped.
    When the failure report cannot be delivered the log line repeats the
    text of [err], as the source does. *)
Definition codePipelineHandler (event : CodePipelineJobEvent) : M unit :=
  log ("Event log: " +:+ DumpsJobEvent W event) ;;
  let userParameters :=
    (unmarshalUserParameters W (JobUserParameters event)).1 in
  log ("parameters obtained: " +:+ formatUserParameters W userParameters) ;;
  err <- handleImages userParameters ;
  match err with
  | Some e =>
      log ("copy image failed: " +:+ Error e) ;;
      updateErr <- PutJobFailure (JobID event) (Error e) ;
      match updateErr with
      | Some _ => log ("putting job failure results failed: " +:+ Error e)
      | None => ret tt
      end
  | None =>
      err <- PutJobSuccess (JobID event) (successSummary userParameters) ;
      match err with
      | Some text => log ("putting job success results failed: " +:+ text)
      | None => ret tt
      end
  end.

(** *** Dispatch *)

(** What the Lambda runtime receives back from one invocation. *)
Inductive Response :=
| CfnResponse (physicalResourceID : string) (data : gmap string string)
    (err : option error)
| JobResponse.

(** [lambda.Start(handler)]: the runtime serves, one after the other,
    the invocations this process receives during its life. *)
Fixpoint lambda_Start {Ev : Type} (decode : string -> Ev)
    (handler : Ev -> M Response) (payloads : list string)
  : M (list Response) :=
  match payloads with
  | [] => ret []
  | p :: rest =>
      r <- handler (decode p) ;
      rs <- lambda_Start decode handler rest ;
      ret (r :: rs)
  end.

Definition customResource (payloads : list string) : M (list Response) :=
  lambda_Start (unmarshalEvent W)
    (fun event =>
       r <- cfnHandler event ;
       ret (CfnResponse r.1.1 r.1.2 r.2))
    payloads.

Definition codePipeline (payloads : list string) : M (list Response) :=
  lambda_Start (unmarshalJobEvent W)
    (fun event => codePipelineHandler event ;; ret JobResponse)
    payloads.

(** [func main()]: [payloads] are the invocations delivered to the
    process started by this call. *)
Definition main (payloads : list string) : M (list Response) :=
  invoker <- os_Getenv "INVOKER" ;
  if decide (invoker = "CODEPIPELINE") then
    codePipeline payloads
  else
    customResource payloads.

End Handler.

(** ** The deployment side (src/index.ts)

    [ECRDeployment] creates the Lambda function with the environment
    [{ ...props.environment, INVOKER: invoker }], where [invoker] is
    [CODEPIPELINE] when a stage or a wave is given and [CLOUDFORMATION]
    otherwise. *)

Definition partOfPipeline (stage wave : bool) : bool := stage || wave.

Definition invoker (stage wave : bool) : string :=
  if partOfPipeline stage wave then "CODEPIPELINE" else "CLOUDFORMATION".

Definition handlerEnvironment (environment : gmap string string)
    (stage wave : bool) : gmap string string :=
  <["INVOKER" := invoker stage wave]> environment.

(** ** Views used by the statements *)

(** The flow that produced a response, and the error the runtime sees. *)
Inductive Flow := ProvisioningFlow | PipelineFlow.

Definition flowOf (r : Response) : Flow :=
  match r with
  | CfnResponse _ _ _ => ProvisioningFlow
  | JobResponse => PipelineFlow
  end.


Definition selectedFlow (W : World) : Flow :=
  if decide (default "" (environ W !! "INVOKER") = "CODEPIPELINE")
  then PipelineFlow
  else ProvisioningFlow.

(** The world [W] with another process environment, or another decoder
    of [UserParameters]. *)
Definition withEnviron (env : gmap string string) (W : World) : World := {|
  environ := env;
  secretValue := secretValue W;
  unmarshalSecret := unmarshalSecret W;
  unmarshalUserParameters := unmarshalUserParameters W;
  unmarshalEvent := unmarshalEvent W;
  unmarshalJobEvent := unmarshalJobEvent W;
  parseImageNameError := parseImageNameError W;
  systemContextError := systemContextError W;
  policyContextError := policyContextError W;
  copyImageError := copyImageError W;
  putJobSuccessResultError := putJobSuccessResultError W;
  putJobFailureResultError := putJobFailureResultError W;
  DumpsEvent := DumpsEvent W;
  DumpsJobEvent := DumpsJobEvent W;
  formatUserParameters := formatUserParameters W
|}.

Definition withDecoder (dec : string -> UserParameters * option string)
    (W : World) : World := {|
  environ := environ W;
  secretValue := secretValue W;
  unmarshalSecret := unmarshalSecret W;
  unmarshalUserParameters := dec;
  unmarshalEvent := unmarshalEvent W;
  unmarshalJobEvent := unmarshalJobEvent W;
  parseImageNameError := parseImageNameError W;
  systemContextError := systemContextError W;
  policyContextError := policyContextError W;
  copyImageError := copyImageError W;
  putJobSuccessResultError := putJobSuccessResultError W;
  putJobFailureResultError := putJobFailureResultError W;
  DumpsEvent := DumpsEvent W;
  DumpsJobEvent := DumpsJobEvent W;
  formatUserParameters := formatUserParameters W
|}.

(** The structure each handler hands to [handleImages]. *)
Definition jobParameters (W : World) (event : CodePipelineJobEvent)
  : UserParameters :=
  (unmarshalUserParameters W (JobUserParameters event)).1.

Definition eventParameters (W : World) (event : Event) : UserParameters :=
  (unmarshalUserParameters W (ResourceProperties event)).1.

(** A name the reference parser of the library rejects. *)
Definition unrecognized (W : World) (name : string) : Prop :=
  is_Some (parseImageNameError W name).

(** A run that ends with an error of the given kind. *)
Definition failsWith (k : ErrorKind) (m : M (option error)) : Prop :=
  exists e, value m = Some e /\ kind e = k.

(** The secret-store reads a descriptor causes. *)
Definition credsReads (creds : Creds) : Trace :=
  if decide (SecretArn creds <> "") then [SecretRead (SecretArn creds)] else [].

(** The effects [handleImages] can perform. *)
Definition coreEffect (e : Effect) : bool :=
  match e with
  | SecretRead _ | Log _ | CopyImage _ _ _ _ | PolicyDestroy => true
  | _ => false
  end.

(** What the pipeline handler does once [handleImages] has answered. *)
Definition jobReport (W : World) (jobId : string)
    (userParameters : UserParameters) (outcome : option error) : Trace :=
  match outcome with
  | Some e =>
      Log ("copy image failed: " +:+ Error e)
      :: PutJobFailureResult jobId (Error e)
      :: match putJobFailureResultError W jobId (Error e) with
         | Some _ => [Log ("putting job failure results failed: " +:+ Error e)]
         | None => []
         end
  | None =>
      PutJobSuccessResult jobId (successSummary userParameters)
      :: match putJobSuccessResultError W jobId
                 (successSummary userParameters) with
         | Some text => [Log ("putting job success results failed: " +:+ text)]
         | None => []
         end
  end.

(** ** A concrete world

    The scenarios of the specification, used to run the handler on
    concrete inputs. *)

Definition plainCreds (text : string) : Creds := mkCreds text "" "" "".
Definition wholeSecret (arn : string) : Creds := mkCreds "" arn "" "".
Definition splitCreds (arn u p : string) : Creds := mkCreds "" arn u p.

Definition scenarioParameters : UserParameters :=
  mkUserParameters "docker://repo/app:v1" (plainCreds "u:p")
                   "docker://other/app:v1" noCreds.

Definition brokenParameters : UserParameters :=
  mkUserParameters "docker://repo/broken:v1" noCreds
                   "docker://other/app:v1" noCreds.

Definition ftpParameters : UserParameters :=
  mkUserParameters "ftp://host/path" noCreds
                   "docker://other/app:v1" noCreds.

Definition ftpLockedParameters : UserParameters :=
  mkUserParameters "ftp://host/path" (wholeSecret "missing")
                   "docker://other/app:v1" noCreds.

Definition demoSecretValue (secretId : string) : string + string :=
  if decide (secretId = "dockerhub") then inr "token123"
  else if decide (secretId = "kv-secret") then inr "{u: alice, p: s3cr3t}"
  else if decide (secretId = "half-secret") then inr "{u: alice}"
  else inl "ResourceNotFoundException".

Definition demoUnmarshalSecret (raw : string) : string + gmap string string :=
  if decide (raw = "{u: alice, p: s3cr3t}")
  then inr (<["u" := "alice"]> (<["p" := "s3cr3t"]> ∅))
  else if decide (raw = "{u: alice}")
  then inr (<["u" := "alice"]> ∅)
  else inl "json: cannot unmarshal string into Go value".

(** Payloads are named by a word; [mistyped] is a payload on which the
    decoder reports a type error for one field after it has filled the
    others. *)
Definition demoUnmarshalUserParameters (payload : string)
  : UserParameters * option string :=
  if decide (payload = "scenario") then (scenarioParameters, None)
  else if decide (payload = "broken") then (brokenParameters, None)
  else if decide (payload = "ftp") then (ftpParameters, None)
  else if decide (payload = "ftp-locked") then (ftpLockedParameters, None)
  else if decide (payload = "mistyped")
  then (scenarioParameters,
        Some "json: cannot unmarshal number into Go struct field")
  else if decide (payload = "{}") then (zeroUserParameters, None)
  else (zeroUserParameters, Some "invalid character").

Definition demoParseImageNameError (name : string) : option string :=
  if String.prefix "docker://" name || String.prefix "s3://" name
  then None
  else Some ("Invalid image name " +:+ name +:+ ", unknown transport").

Definition demoCopyImageError (destRef srcRef : ImageReference)
    (destCtx srcCtx : SystemContext) : option string :=
  if decide (refName srcRef = "docker://repo/broken:v1")
  then Some "manifest unknown"
  else None.

Definition demoUnmarshalEvent (payload : string) : Event :=
  if decide (payload = "delete") then mkEvent RequestDelete "res-1" "ftp"
  else mkEvent RequestCreate "res-1" payload.

Definition demoWorld : World := {|
  environ := <["INVOKER" := "CODEPIPELINE"]> ∅;
  secretValue := demoSecretValue;
  unmarshalSecret := demoUnmarshalSecret;
  unmarshalUserParameters := demoUnmarshalUserParameters;
  unmarshalEvent := demoUnmarshalEvent;
  unmarshalJobEvent := fun payload => mkJobEvent "job-1" payload;
  parseImageNameError := demoParseImageNameError;
  systemContextError := fun _ => None;
  policyContextError := None;
  copyImageError := demoCopyImageError;
  putJobSuccessResultError := fun _ _ => None;
  putJobFailureResultError := fun _ _ => None;
  DumpsEvent := fun event => RequestType event;
  DumpsJobEvent := fun event => JobID event;
  formatUserParameters := fun up => SrcImage up +:+ " " +:+ DestImage up
|}.

(** The same world, deployed as a custom resource. *)
Definition cfnWorld : World :=
  withEnviron (<["INVOKER" := "CLOUDFORMATION"]> ∅) demoWorld.

(** ** The runs of [handleImages]

    Where a run of [handleImages] can end, in source order, with the
    error it returns and the trace it leaves. *)

Definition imagesLogLine (up : UserParameters) : string :=
  "SrcImage: " +:+ SrcImage up +:+ " DestImage: " +:+ DestImage up.

Definition srcOptions (up : UserParameters) (srcCreds : string) : ImageOpts :=
  SetCreds srcCreds (NewImageOpts (SrcImage up)).

Definition destOptions (up : UserParameters) (destCreds : string) : ImageOpts :=
  SetCreds destCreds (NewImageOpts (DestImage up)).

Definition resolvedTrace (up : UserParameters) : Trace :=
  credsReads (SrcCreds up) ++ credsReads (DestCreds up) ++
  [Log (imagesLogLine up)].

Inductive HandleImagesRun (W : World) (up : UserParameters)
  : option error -> Trace -> Prop :=
| RunSrcCreds (e : error) :
    (parseCreds W (SrcCreds up)).1 = inl e ->
    HandleImagesRun W up (Some e) (credsReads (SrcCreds up))
| RunDestCreds (sc : string) (e : error) :
    (parseCreds W (SrcCreds up)).1 = inr sc ->
    (parseCreds W (DestCreds up)).1 = inl e ->
    HandleImagesRun W up (Some e)
      (credsReads (SrcCreds up) ++ credsReads (DestCreds up))
| RunSrcRef (sc dc text : string) :
    (parseCreds W (SrcCreds up)).1 = inr sc ->
    (parseCreds W (DestCreds up)).1 = inr dc ->
    parseImageNameError W (SrcImage up) = Some text ->
    HandleImagesRun W up (Some (mkError ReferenceError text)) (resolvedTrace up)
| RunDestRef (sc dc text : string) :
    (parseCreds W (SrcCreds up)).1 = inr sc ->
    (parseCreds W (DestCreds up)).1 = inr dc ->
    parseImageNameError W (SrcImage up) = None ->
    parseImageNameError W (DestImage up) = Some text ->
    HandleImagesRun W up (Some (mkError ReferenceError text)) (resolvedTrace up)
| RunSrcContext (sc dc text : string) :
    (parseCreds W (SrcCreds up)).1 = inr sc ->
    (parseCreds W (DestCreds up)).1 = inr dc ->
    parseImageNameError W (SrcImage up) = None ->
    parseImageNameError W (DestImage up) = None ->
    systemContextError W (srcOptions up sc) = Some text ->
    HandleImagesRun W up (Some (mkError ContextError text)) (resolvedTrace up)
| RunDestContext (sc dc text : string) :
    (parseCreds W (SrcCreds up)).1 = inr sc ->
    (parseCreds W (DestCreds up)).1 = inr dc ->
    parseImageNameError W (SrcImage up) = None ->
    parseImageNameError W (DestImage up) = None ->
    systemContextError W (srcOptions up sc) = None ->
    systemContextError W (destOptions up dc) = Some text ->
    HandleImagesRun W up (Some (mkError ContextError text)) (resolvedTrace up)
| RunPolicy (sc dc text : string) :
    (parseCreds W (SrcCreds up)).1 = inr sc ->
    (parseCreds W (DestCreds up)).1 = inr dc ->
    parseImageNameError W (SrcImage up) = None ->
    parseImageNameError W (DestImage up) = None ->
    systemContextError W (srcOptions up sc) = None ->
    systemContextError W (destOptions up dc) = None ->
    policyContextError W = Some text ->
    HandleImagesRun W up (Some (mkError PolicyError text)) (resolvedTrace up)
| RunCopy (sc dc : string) :
    (parseCreds W (SrcCreds up)).1 = inr sc ->
    (parseCreds W (DestCreds up)).1 = inr dc ->
    parseImageNameError W (SrcImage up) = None ->
    parseImageNameError W (DestImage up) = None ->
    systemContextError W (srcOptions up sc) = None ->
    systemContextError W (destOptions up dc) = None ->
    policyContextError W = None ->
    HandleImagesRun W up
      (match copyImageError W (ParsedReference (DestImage up))
               (ParsedReference (SrcImage up))
               (BuiltContext (destOptions up dc))
               (BuiltContext (srcOptions up sc)) with
       | Some text =>
           Some (mkError CopyError ("copy image failed: " +:+ text))
       | None => None
       end)
      (resolvedTrace up ++
       [CopyImage (ParsedReference (DestImage up))
          (ParsedReference (SrcImage up))
          (BuiltContext (destOptions up dc))
          (BuiltContext (srcOptions up sc));
        PolicyDestroy]).

(** ** The remaining functions of lambda/main.go *)

(** Values of Go's [interface{}] as [encoding/json] produces them.  The
    functions below only look at the outermost form, so no induction
    principle is asked for. *)
#[local] Unset Elimination Schemes.
Inductive GoValue :=
| VNil
| VBool (b : bool)
| VNumber (literal : string)
| VString (s : string)
| VSlice (items : list GoValue)
| VObject (fields : list (string * GoValue)).
#[local] Set Elimination Schemes.

(** [func getStrProps(m map[string]interface{}, k string) (string, error)].
    Reading a key the map does not hold gives [nil]; the result is the
    string, or on the left the text of the error. *)
Definition getStrProps (m : gmap string GoValue) (k : string)
  : string + string :=
  let v := default VNil (m !! k) in
  match v with
  | VString val => inr val
  | _ => inl ("can't get " +:+ k)
  end.

(** [func getStrPropsDefault(m map[string]interface{}, k string, d string)
    (string, error)] *)
Definition getStrPropsDefault (m : gmap string GoValue) (k d : string)
  : string + string :=
  let v := default VNil (m !! k) in
  match v with
  | VNil => inr d
  | VString val => inr val
  | _ => inl ("can't get " +:+ k)
  end.

Definition EnvLogLevel : string := "LOG_LEVEL".

(** The calls [init] makes on logrus. *)
Inductive LogrusCall (Level : Type) :=
| SetLevel (lvl : Level)
| Errorf (line : string).

Arguments SetLevel {Level} lvl.
Arguments Errorf {Level} line.

(** [func init()].  [os.LookupEnv] tells a variable that is not set from
    one set to the empty string.  [ParseLevel] answers as the Go function
    does, with a level and an error (its text) or none; [InfoLevel] is
    logrus's constant. *)
Definition init {Level : Type} (InfoLevel : Level)
    (ParseLevel : string -> Level * option string) (W : World)
  : list (LogrusCall Level) :=
  match environ W !! EnvLogLevel with
  | None => [SetLevel InfoLevel]
  | Some s =>
      let '(lvl, err) := ParseLevel s in
      match err with
      | Some text =>
          [Errorf ("error parsing " +:+ EnvLogLevel +:+ ": " +:+ text);
           SetLevel lvl]
      | None => [SetLevel lvl]
      end
  end.

Definition isSetLevel {Level : Type} (c : LogrusCall Level) : bool :=
  match c with SetLevel _ => true | Errorf _ => false end.

Definition isPolicyDestroy (e : Effect) : bool :=
  match e with PolicyDestroy => true | _ => false end.

Definition isLog (e : Effect) : bool :=
  match e with Log _ => true | _ => false end.

(** ** The deployment side, continued *)

(** *** Image names (src/types.ts) *)

(** [DockerImageName]: [get uri() { return `docker://${this.name}` }] *)
Definition DockerImageName_uri (name : string) : string :=
  "docker://" +:+ name.

(** [S3ArchiveName]: the constructor appends [':' + ref] when [ref] is
    truthy, that is given and not the empty string. *)
Definition S3ArchiveName_name (p : string) (ref : option string) : string :=
  match ref with
  | Some r => if decide (r = "") then p else p +:+ ":" +:+ r
  | None => p
  end.

Definition S3ArchiveName_uri (p : string) (ref : option string) : string :=
  "s3://" +:+ S3ArchiveName_name p ref.

(** *** Credentials (src/types.ts, src/utils.ts) *)

Record IPlainText := mkPlainText {
  userName : string;
  password : string
}.

(** [ISecret]: of the secret itself only [secret.secretArn] is read. *)
Record ISecret := mkSecret {
  secret_secretArn : string;
  secret_usernameKey : option string;
  secret_passwordKey : option string
}.

Record ICredentials := mkCredentials {
  credentials_plainText : option IPlainText;
  credentials_secretManager : option ISecret
}.

Record LambdaCredentials := mkLambdaCredentials {
  plainText : option string;
  secretArn : option string;
  usernameKey : option string;
  passwordKey : option string
}.

(** [creds?.plainText] and [creds?.secretManager] *)
Definition plainTextOf (creds : option ICredentials) : option IPlainText :=
  match creds with
  | Some c => credentials_plainText c
  | None => None
  end.

Definition secretManagerOf (creds : option ICredentials) : option ISecret :=
  match creds with
  | Some c => credentials_secretManager c
  | None => None
  end.

(** [export const formatCredentials = (creds?: ICredentials):
    LambdaCredentials].  An object is truthy, so the plain text is
    formatted whenever it is given. *)
Definition formatCredentials (creds : option ICredentials)
  : LambdaCredentials := {|
  plainText :=
    match plainTextOf creds with
    | Some pt => Some (userName pt +:+ ":" +:+ password pt)
    | None => None
    end;
  secretArn :=
    match secretManagerOf creds with
    | Some sm => Some (secret_secretArn sm)
    | None => None
    end;
  usernameKey :=
    match secretManagerOf creds with
    | Some sm => secret_usernameKey sm
    | None => None
    end;
  passwordKey :=
    match secretManagerOf creds with
    | Some sm => secret_passwordKey sm
    | None => None
    end
|}.

(** *** The singleton function (src/index.ts) *)

Definition doubleQuote : string :=
  String (Ascii.Ascii false true false false false true false false) EmptyString.

Definition tokenError : string :=
  "Can't use tokens when specifying " +:+ doubleQuote +:+ "memoryLimit" +:+
  doubleQuote +:+
  " since we use it to identify the singleton custom resource handler".

(** [private renderSingletonUuid(memoryLimit?: number)].  Memory sizes
    are whole numbers of MiB, which [toString] prints in decimal as long
    as they are safe integers; zero is falsy.  [isUnresolved] stands for
    [Token.isUnresolved]; a thrown [Error] is its message, on the left. *)
Definition renderSingletonUuid (isUnresolved : N -> bool)
    (memoryLimit : option N) : string + string :=
  let uuid := "bd07c930-edb9-4112-a20f-03f096f53666" in
  match memoryLimit with
  | Some n =>
      if decide (n = 0%N) then inr uuid
      else if isUnresolved n then inl tokenError
      else inr (uuid +:+ "-" +:+ pretty n +:+ "MiB")
  | None => inr uuid
  end.

(** The constructor's [uuid: this.renderSingletonUuid(memoryLimit)] with
    [const memoryLimit = props.memoryLimit ?? 512]. *)
Definition singletonUuid (isUnresolved : N -> bool)
    (propsMemoryLimit : option N) : string + string :=
  renderSingletonUuid isUnresolved (Some (default 512%N propsMemoryLimit)).

Definition maxSafeInteger : N := 9007199254740991.

(** *** Local bundling (src/index.ts) *)

(** What a [child_process.spawnSync] call did: it returned, with or
    without the [error] property set, or it threw. *)
Inductive Spawned := SpawnReturned (hasError : bool) | SpawnThrew.

(** The build machine: [shouldUsePrebuiltLambda()] (src/config.ts),
    whether [execSync] of the install script returned, the two probes,
    and the build, which either threw (also while its output was
    printed) or returned with an exit status. *)
Record BuildHost := mkBuildHost {
  shouldUsePrebuiltLambda : bool;
  installReturned : bool;
  goVersion : Spawned;
  makeVersion : Spawned;
  makeLambda : option Z
}.

Inductive BuildCall :=
| ExecInstall
| SpawnGoVersion
| SpawnMakeVersion
| SpawnMakeLambda.

(** [function getPrebuiltLambda(outputDir: string): boolean] *)
Definition getPrebuiltLambda (H : BuildHost) : bool * list BuildCall :=
  (installReturned H, [ExecInstall]).

(** The second [try] of [tryBundle]: the build itself. *)
Definition buildLocally (H : BuildHost) : bool * list BuildCall :=
  match makeLambda H with
  | Some _ => (true, [SpawnMakeLambda])
  | None => (false, [SpawnMakeLambda])
  end.

(** The probes of the first [try] of [tryBundle], then the build. *)
Definition probeAndBuild (H : BuildHost) : bool * list BuildCall :=
  match goVersion H with
  | SpawnThrew | SpawnReturned true => (false, [SpawnGoVersion])
  | SpawnReturned false =>
      match makeVersion H with
      | SpawnThrew | SpawnReturned true =>
          (false, [SpawnGoVersion; SpawnMakeVersion])
      | SpawnReturned false =>
          ((buildLocally H).1,
           [SpawnGoVersion; SpawnMakeVersion] ++ (buildLocally H).2)
      end
  end.

(** [tryBundle(outputDir: string)]: the answer, and the child processes
    started on the way. *)
Definition tryBundle (H : BuildHost) : bool * list BuildCall :=
  if shouldUsePrebuiltLambda H then
    if (getPrebuiltLambda H).1 then (true, (getPrebuiltLambda H).2)
    else ((probeAndBuild H).1, (getPrebuiltLambda H).2 ++ (probeAndBuild H).2)
  else probeAndBuild H.

(** *** Values for the examples *)

Definition demoProperties : gmap string GoValue :=
  <["SrcImage" := VString "docker://repo/app:v1"]>
    (<["Retries" := VNumber "3"]> (<["Note" := VNil]> ∅)).

Definition demoBuildHost : BuildHost :=
  mkBuildHost false false (SpawnReturned false) (SpawnReturned false) (Some 2%Z).

Definition demoParseLevel (s : string) : nat * option string :=
  if decide (s = "debug") then (5, None)
  else if decide (s = "info") then (4, None)
  else (0, Some ("not a valid logrus Level: " +:+ s)).

(** The pipeline world with a job-control API that answers every report
    with an error. *)
Definition flakyWorld : World := {|
  environ := environ demoWorld;
  secretValue := secretValue demoWorld;
  unmarshalSecret := unmarshalSecret demoWorld;
  unmarshalUserParameters := unmarshalUserParameters demoWorld;
  unmarshalEvent := unmarshalEvent demoWorld;
  unmarshalJobEvent := unmarshalJobEvent demoWorld;
  parseImageNameError := parseImageNameError demoWorld;
  systemContextError := systemContextError demoWorld;
  policyContextError := policyContextError demoWorld;
  copyImageError := copyImageError demoWorld;
  putJobSuccessResultError := fun _ _ => Some "ThrottlingException";
  putJobFailureResultError := fun _ _ => Some "ThrottlingException";
  DumpsEvent := DumpsEvent demoWorld;
  DumpsJobEvent := DumpsJobEvent demoWorld;
  formatUserParameters := formatUserParameters demoWorld
|}.

(** ** The scenarios of the specification, run *)

Example scenario_whole_secret :
  parseCreds demoWorld (wholeSecret "dockerhub")
  = (inr "token123", [SecretRead "dockerhub"]).
Proof. reflexivity. Qed.

Example scenario_split_secret :
  parseCreds demoWorld (splitCreds "kv-secret" "u" "p")
  = (inr "alice:s3cr3t", [SecretRead "kv-secret"]).
Proof. reflexivity. Qed.

Example scenario_half_secret :
  value (parseCreds demoWorld (splitCreds "half-secret" "u" "p"))
  = inl (mkError (ResolutionError MalformedSecret) "missing key p").
Proof. reflexivity. Qed.

Example scenario_provisioning :
  value (cfnHandler cfnWorld (mkEvent RequestCreate "res-1" "scenario"))
  = ("res-1", ∅, None).
Proof. reflexivity. Qed.

Example scenario_provisioning_failure :
  value (cfnHandler cfnWorld (mkEvent RequestUpdate "res-1" "broken"))
  = ("res-1", ∅,
     Some (mkError CopyError "copy image failed: manifest unknown")).
Proof. reflexivity. Qed.

Example scenario_pipeline :
  trace (codePipelineHandler demoWorld (mkJobEvent "job-1" "ftp"))
  = [Log "Event log: job-1";
     Log "parameters obtained: ftp://host/path docker://other/app:v1";
     Log "SrcImage: ftp://host/path DestImage: docker://other/app:v1";
     Log "copy image failed: Invalid image name ftp://host/path, unknown transport";
     PutJobFailureResult "job-1"
       "Invalid image name ftp://host/path, unknown transport"].
Proof. reflexivity. Qed.

(** ** Basic facts about traces *)

Lemma calls_app (p : Effect -> bool) (t1 t2 : Trace) :
  calls p (t1 ++ t2) = calls p t1 + calls p t2.
Proof.
  unfold calls. induction t1 as [|e t1 IH]; simpl; [done|].
  destruct (p e); simpl; lia.
Qed.

Lemma calls_cons (p : Effect -> bool) (e : Effect) (t : Trace) :
  calls p (e :: t) = (if p e then 1 else 0) + calls p t.
Proof. unfold calls. simpl. destruct (p e); simpl; lia. Qed.

Lemma calls_none (p : Effect -> bool) (t : Trace) :
  Forall (fun e => p e = false) t -> calls p t = 0.
Proof.
  induction 1 as [|e t He _ IH]; [done|].
  rewrite calls_cons, He, IH. done.
Qed.

Lemma calls_core (p : Effect -> bool) (t : Trace) :
  (forall e, coreEffect e = true -> p e = false) ->
  Forall (fun e => coreEffect e = true) t ->
  calls p t = 0.
Proof.
  intros Hp Ht. apply calls_none.
  eapply Forall_impl; [exact Ht|]. simpl. auto.
Qed.

Lemma bind_value {A B} (m : M A) (f : A -> M B) :
  value (bind m f) = value (f (value m)).
Proof. reflexivity. Qed.

Lemma bind_trace {A B} (m : M A) (f : A -> M B) :
  trace (bind m f) = trace m ++ trace (f (value m)).
Proof. reflexivity. Qed.

Lemma ret_value {A} (a : A) : value (ret a) = a.
Proof. reflexivity. Qed.

Lemma ret_trace {A} (a : A) : trace (ret a) = [].
Proof. reflexivity. Qed.

(** ** Credential resolution *)

Lemma GetSecret_trace (W : World) (creds : Creds) :
  trace (GetSecret W creds) = [SecretRead (SecretArn creds)].
Proof.
  unfold GetSecret. rewrite bind_trace. simpl.
  destruct (secretValue W (SecretArn creds)); [done|].
  case_decide; done.
Qed.

Lemma parseCreds_trace (W : World) (creds : Creds) :
  trace (parseCreds W creds) = credsReads creds.
Proof.
  unfold parseCreds, credsReads.
  case_decide; [apply GetSecret_trace|].
  case_decide; done.
Qed.

Lemma parseCreds_secret (W : World) (creds : Creds) :
  SecretArn creds <> "" -> parseCreds W creds = GetSecret W creds.
Proof. intros Harn. unfold parseCreds. case_decide; [done|contradiction]. Qed.

Lemma GetSecret_split (W : World) (creds : Creds) (raw : string) :
  secretValue W (SecretArn creds) = inr raw ->
  UsernameKey creds <> "" -> PasswordKey creds <> "" ->
  value (GetSecret W creds) = splitSecret W creds raw.
Proof.
  intros Hraw Hu Hp. unfold GetSecret, value, bind. simpl. rewrite Hraw.
  case_decide as Hboth; [done|]. destruct Hboth. done.
Qed.

Lemma GetSecret_whole (W : World) (creds : Creds) (raw : string) :
  secretValue W (SecretArn creds) = inr raw ->
  UsernameKey creds = "" \/ PasswordKey creds = "" ->
  value (GetSecret W creds) = inr raw.
Proof.
  intros Hraw Hkey. unfold GetSecret, value, bind. simpl. rewrite Hraw.
  case_decide as Hboth; [|done].
  destruct Hboth as [Hu Hp]. destruct Hkey; contradiction.
Qed.

Lemma GetSecret_missing (W : World) (creds : Creds) (text : string) :
  secretValue W (SecretArn creds) = inl text ->
  value (GetSecret W creds) = inl (mkError (ResolutionError SecretNotFound) text).
Proof.
  intros Hraw. unfold GetSecret, value, bind. simpl. rewrite Hraw. done.
Qed.

Lemma credsReads_core (creds : Creds) :
  Forall (fun e => coreEffect e = true) (credsReads creds).
Proof. unfold credsReads. case_decide; repeat constructor. Qed.

Lemma credsReads_no_copy (creds : Creds) : calls isCopyImage (credsReads creds) = 0.
Proof. unfold credsReads. case_decide; done. Qed.

(** ** The copy orchestration *)

(** Case analysis over the run of [handleImages]: the two credential
    resolutions, then every library call in source order. *)
Ltac split_handleImages W up :=
  let Hs := fresh "Hsrc" in
  let Hd := fresh "Hdest" in
  let Hst := fresh "Hsrct" in
  let Hdt := fresh "Hdestt" in
  pose proof (parseCreds_trace W (SrcCreds up)) as Hst;
  pose proof (parseCreds_trace W (DestCreds up)) as Hdt;
  unfold handleImages, orReturn, copy_Image, ParseImageName,
    NewSystemContext, newPolicyContext, log, tell, bind, ret, value, trace
    in *;
  destruct (parseCreds W (SrcCreds up)) as [[?|?] ?] eqn:Hs;
  destruct (parseCreds W (DestCreds up)) as [[?|?] ?] eqn:Hd;
  simpl in *; subst;
  repeat match goal with
    | |- context [match parseImageNameError ?w ?n with _ => _ end] =>
        destruct (parseImageNameError w n) eqn:?; simpl in *
    | |- context [match systemContextError ?w ?o with _ => _ end] =>
        destruct (systemContextError w o) eqn:?; simpl in *
    | |- context [match policyContextError ?w with _ => _ end] =>
        destruct (policyContextError w) eqn:?; simpl in *
    | |- context [match copyImageError ?w ?d ?s ?dc ?sc with _ => _ end] =>
        destruct (copyImageError w d s dc sc) eqn:?; simpl in *
    end.

Lemma handleImages_core (W : World) (userParameters : UserParameters) :
  Forall (fun e => coreEffect e = true) (trace (handleImages W userParameters)).
Proof.
  pose proof (credsReads_core (SrcCreds userParameters)) as Hs.
  pose proof (credsReads_core (DestCreds userParameters)) as Hd.
  split_handleImages W userParameters;
    rewrite ?Forall_app; repeat split; auto; repeat constructor.
Qed.

Lemma elem_of_credsReads (e : Effect) (creds : Creds) :
  e ∈ credsReads creds -> e = SecretRead (SecretArn creds).
Proof.
  unfold credsReads. case_decide; [|by rewrite elem_of_nil].
  rewrite elem_of_cons, elem_of_nil. by intros [->|[]].
Qed.

(** A run that ends without error went through the engine exactly once,
    and the engine reported success. *)
Lemma handleImages_success (W : World) (userParameters : UserParameters) :
  value (handleImages W userParameters) = None ->
  calls isCopyImage (trace (handleImages W userParameters)) = 1 /\
  exists destRef srcRef destCtx srcCtx,
    CopyImage destRef srcRef destCtx srcCtx
      ∈ trace (handleImages W userParameters) /\
    copyImageError W destRef srcRef destCtx srcCtx = None.
Proof.
  pose proof (credsReads_no_copy (SrcCreds userParameters)) as Hs.
  pose proof (credsReads_no_copy (DestCreds userParameters)) as Hd.
  split_handleImages W userParameters; try discriminate.
  intros _. split.
  - rewrite !calls_app, Hs, Hd. reflexivity.
  - do 4 eexists. split; [|eassumption].
    rewrite !elem_of_app, !elem_of_cons. auto.
Qed.

(** ** The two flows *)

Lemma cfnHandler_copy (W : World) (event : Event) :
  RequestType event = RequestCreate \/ RequestType event = RequestUpdate ->
  cfnHandler W event =
    ((PhysicalResourceID event, ∅,
      value (handleImages W (eventParameters W event))),
     Log ("Event: " +:+ DumpsEvent W event)
     :: Log ("Event: " +:+ DumpsEvent W event)
     :: trace (handleImages W (eventParameters W event))).
Proof.
  intros Hcopy. unfold cfnHandler, eventParameters.
  case_decide as Hdelete.
  { rewrite Hdelete in Hcopy. destruct Hcopy; discriminate. }
  case_decide; [|contradiction].
  unfold log, tell, bind, ret, value, trace.
  destruct (handleImages W _) as [[e|] t]; simpl; by rewrite app_nil_r.
Qed.

Lemma codePipelineHandler_trace (W : World) (event : CodePipelineJobEvent) :
  trace (codePipelineHandler W event) =
    Log ("Event log: " +:+ DumpsJobEvent W event)
    :: Log ("parameters obtained: " +:+
            formatUserParameters W (jobParameters W event))
    :: trace (handleImages W (jobParameters W event))
    ++ jobReport W (JobID event) (jobParameters W event)
         (value (handleImages W (jobParameters W event))).
Proof.
  unfold codePipelineHandler, jobParameters, jobReport, PutJobFailure,
    PutJobSuccess, log, tell, bind, ret, value, trace.
  destruct (handleImages W _) as [[e|] t]; simpl.
  - destruct (putJobFailureResultError W _ _); reflexivity.
  - destruct (putJobSuccessResultError W _ _); reflexivity.
Qed.

Lemma handleImages_no_report (W : World) (userParameters : UserParameters) :
  calls isPutJobSuccess (trace (handleImages W userParameters)) = 0 /\
  calls isPutJobFailure (trace (handleImages W userParameters)) = 0.
Proof.
  split; (apply calls_core; [|apply handleImages_core]);
    intros []; simpl; congruence.
Qed.

(** ** Claims about credential resolution *)

(** C1. Resolution follows a fixed precedence.  A descriptor with a
    secret identifier resolves through the secret store, whatever its
    plaintext field holds: one read, then the split path when both key
    names are present and the whole-secret path (the raw value) otherwise.
    Without a secret identifier a plaintext value is returned unchanged
    with no secret-store read; with neither, the result is the empty
    credential and no error. *)
Theorem parseCreds_precedence (W : World) (creds : Creds) :
  (SecretArn creds <> "" ->
     parseCreds W creds = GetSecret W creds /\
     trace (parseCreds W creds) = [SecretRead (SecretArn creds)] /\
     forall raw, secretValue W (SecretArn creds) = inr raw ->
       (UsernameKey creds <> "" /\ PasswordKey creds <> "" ->
          value (parseCreds W creds) = splitSecret W creds raw) /\
       (UsernameKey creds = "" \/ PasswordKey creds = "" ->
          value (parseCreds W creds) = inr raw)) /\
  (SecretArn creds = "" -> PlainText creds <> "" ->
     parseCreds W creds = (inr (PlainText creds), []) /\
     calls isSecretRead (trace (parseCreds W creds)) = 0) /\
  (SecretArn creds = "" -> PlainText creds = "" ->
     parseCreds W creds = (inr "", [])).
Proof.
  split; [|split].
  - intros Harn. split; [by apply parseCreds_secret|]. split.
    { rewrite parseCreds_secret by done. apply GetSecret_trace. }
    intros raw Hraw. rewrite parseCreds_secret by done. split.
    + intros [Hu Hp]. by apply GetSecret_split.
    + intros Hkey. by apply GetSecret_whole.
  - intros Harn Hplain. unfold parseCreds.
    case_decide; [contradiction|]. case_decide; [done|contradiction].
  - intros Harn Hplain. unfold parseCreds.
    case_decide; [contradiction|]. case_decide; [contradiction|done].
Qed.

(** The plaintext scenario of the specification: the descriptor [u:p]
    resolves to itself and the secret store is left alone. *)
Lemma parseCreds_precedence_witness :
  parseCreds demoWorld (plainCreds "u:p") = (inr "u:p", []) /\
  calls isSecretRead (trace (parseCreds demoWorld (plainCreds "u:p"))) = 0.
Proof.
  apply (proj1 (proj2 (parseCreds_precedence demoWorld (plainCreds "u:p")))).
  - reflexivity.
  - discriminate.
Defined.

(** C2. A descriptor with a secret identifier and both key names reads
    the secret store exactly once.  When the value read is a key-value
    map holding both named keys the result is
    [<username-value>:<password-value>]; when it is not a key-value map,
    or lacks one of the named keys, resolution fails with
    [MalformedSecret]. *)
Theorem parseCreds_split (W : World) (creds : Creds) :
  SecretArn creds <> "" -> UsernameKey creds <> "" -> PasswordKey creds <> "" ->
  calls isSecretRead (trace (parseCreds W creds)) = 1 /\
  trace (parseCreds W creds) = [SecretRead (SecretArn creds)] /\
  forall raw, secretValue W (SecretArn creds) = inr raw ->
    (forall m u p,
        unmarshalSecret W raw = inr m ->
        m !! UsernameKey creds = Some u ->
        m !! PasswordKey creds = Some p ->
        value (parseCreds W creds) = inr (u +:+ ":" +:+ p)) /\
    ((forall m, unmarshalSecret W raw = inr m ->
                m !! UsernameKey creds = None \/
                m !! PasswordKey creds = None) ->
     exists e, value (parseCreds W creds) = inl e /\
               kind e = ResolutionError MalformedSecret).
Proof.
  intros Harn Hu Hp.
  assert (Htrace : trace (parseCreds W creds) = [SecretRead (SecretArn creds)]).
  { rewrite parseCreds_secret by done. apply GetSecret_trace. }
  split; [rewrite Htrace; reflexivity|]. split; [exact Htrace|].
  intros raw Hraw.
  rewrite parseCreds_secret, (GetSecret_split W creds raw) by done.
  unfold splitSecret. split.
  - intros m u p Hm Hmu Hmp. rewrite Hm, Hmu, Hmp. done.
  - intros Hbad. destruct (unmarshalSecret W raw) as [text|m]; [eauto|].
    destruct (Hbad m eq_refl) as [Hnone|Hnone].
    + rewrite Hnone. eauto.
    + rewrite Hnone. destruct (m !! UsernameKey creds); eauto.
Qed.

(** The key-value scenario of the specification: secret [kv-secret] with
    keys [u] and [p] resolves to [alice:s3cr3t] after one read. *)
Lemma parseCreds_split_witness :
  calls isSecretRead
    (trace (parseCreds demoWorld (splitCreds "kv-secret" "u" "p"))) = 1 /\
  value (parseCreds demoWorld (splitCreds "kv-secret" "u" "p"))
    = inr "alice:s3cr3t".
Proof.
  destruct (parseCreds_split demoWorld (splitCreds "kv-secret" "u" "p"))
    as (Hone & _ & Hvalue); [discriminate..|].
  split; [exact Hone|].
  destruct (Hvalue "{u: alice, p: s3cr3t}" eq_refl) as [Hok _].
  apply (Hok (<["u" := "alice"]> (<["p" := "s3cr3t"]> ∅)) "alice" "s3cr3t");
    reflexivity.
Defined.

(** ** Claims about the two flows *)

(** C3. A [Delete] event is answered at once: the physical resource
    identifier comes back unchanged, there is no error, and apart from
    the log line nothing happens: no secret is read, no image copied. *)
Theorem cfnHandler_delete (W : World) (event : Event) :
  RequestType event = RequestDelete ->
  value (cfnHandler W event) = (PhysicalResourceID event, ∅, None) /\
  trace (cfnHandler W event) = [Log ("Event: " +:+ DumpsEvent W event)] /\
  calls isSecretRead (trace (cfnHandler W event)) = 0 /\
  calls isCopyImage (trace (cfnHandler W event)) = 0.
Proof.
  intros Hdelete.
  assert (Hrun : cfnHandler W event =
                 ((PhysicalResourceID event, ∅, None),
                  [Log ("Event: " +:+ DumpsEvent W event)])).
  { unfold cfnHandler. case_decide; [reflexivity|contradiction]. }
  rewrite Hrun. repeat split.
Qed.

(** A stack removal in the concrete world, its properties naming an
    image the library would refuse. *)
Lemma cfnHandler_delete_witness :
  value (cfnHandler cfnWorld (mkEvent RequestDelete "res-1" "ftp"))
    = ("res-1", ∅, None) /\
  calls isSecretRead
    (trace (cfnHandler cfnWorld (mkEvent RequestDelete "res-1" "ftp"))) = 0 /\
  calls isCopyImage
    (trace (cfnHandler cfnWorld (mkEvent RequestDelete "res-1" "ftp"))) = 0.
Proof.
  destruct (cfnHandler_delete cfnWorld (mkEvent RequestDelete "res-1" "ftp"))
    as (Hvalue & _ & Hreads & Hcopies); [reflexivity|].
  exact (conj Hvalue (conj Hreads Hcopies)).
Defined.

(** C4. When the copy of a pipeline job succeeds, the handler reports
    success exactly once, with the summary
    [Copied image <SrcImage> to <DestImage>], and never reports
    failure. *)
Theorem pipeline_success_report (W : World) (event : CodePipelineJobEvent) :
  value (handleImages W (jobParameters W event)) = None ->
  calls isPutJobSuccess (trace (codePipelineHandler W event)) = 1 /\
  PutJobSuccessResult (JobID event)
    ("Copied image " +:+ SrcImage (jobParameters W event) +:+
     " to " +:+ DestImage (jobParameters W event))
    ∈ trace (codePipelineHandler W event) /\
  calls isPutJobFailure (trace (codePipelineHandler W event)) = 0.
Proof.
  intros Hok.
  destruct (handleImages_no_report W (jobParameters W event)) as [Hs Hf].
  rewrite codePipelineHandler_trace, Hok. unfold jobReport.
  fold (successSummary (jobParameters W event)).
  split; [|split].
  - rewrite !calls_cons, calls_app, !calls_cons, Hs.
    destruct (putJobSuccessResultError W _ _); reflexivity.
  - rewrite !elem_of_cons, elem_of_app, elem_of_cons. auto 10.
  - rewrite !calls_cons, calls_app, !calls_cons, Hf.
    destruct (putJobSuccessResultError W _ _); reflexivity.
Qed.

(** The scenario of the specification, run as a pipeline job. *)
Lemma pipeline_success_report_witness :
  calls isPutJobSuccess
    (trace (codePipelineHandler demoWorld (mkJobEvent "job-1" "scenario"))) = 1 /\
  PutJobSuccessResult "job-1"
    "Copied image docker://repo/app:v1 to docker://other/app:v1"
    ∈ trace (codePipelineHandler demoWorld (mkJobEvent "job-1" "scenario")) /\
  calls isPutJobFailure
    (trace (codePipelineHandler demoWorld (mkJobEvent "job-1" "scenario"))) = 0.
Proof.
  apply (pipeline_success_report demoWorld (mkJobEvent "job-1" "scenario")).
  reflexivity.
Defined.

(** C5. When [handleImages] fails for a pipeline job, be it in credential
    resolution, in building a side or in the copy itself, the handler
    reports failure exactly once, the failure detail is the text of that
    error, and success is never reported. *)
Theorem pipeline_failure_report (W : World) (event : CodePipelineJobEvent)
    (e : error) :
  value (handleImages W (jobParameters W event)) = Some e ->
  calls isPutJobFailure (trace (codePipelineHandler W event)) = 1 /\
  PutJobFailureResult (JobID event) (Error e)
    ∈ trace (codePipelineHandler W event) /\
  calls isPutJobSuccess (trace (codePipelineHandler W event)) = 0.
Proof.
  intros Hfail.
  destruct (handleImages_no_report W (jobParameters W event)) as [Hs Hf].
  rewrite codePipelineHandler_trace, Hfail. unfold jobReport.
  split; [|split].
  - rewrite !calls_cons, calls_app, !calls_cons, Hf.
    destruct (putJobFailureResultError W _ _); reflexivity.
  - rewrite !elem_of_cons, elem_of_app, !elem_of_cons. auto 10.
  - rewrite !calls_cons, calls_app, !calls_cons, Hs.
    destruct (putJobFailureResultError W _ _); reflexivity.
Qed.

(** A job whose source image the engine cannot copy. *)
Lemma pipeline_failure_report_witness :
  calls isPutJobFailure
    (trace (codePipelineHandler demoWorld (mkJobEvent "job-1" "broken"))) = 1 /\
  PutJobFailureResult "job-1" "copy image failed: manifest unknown"
    ∈ trace (codePipelineHandler demoWorld (mkJobEvent "job-1" "broken")) /\
  calls isPutJobSuccess
    (trace (codePipelineHandler demoWorld (mkJobEvent "job-1" "broken"))) = 0.
Proof.
  apply (pipeline_failure_report demoWorld (mkJobEvent "job-1" "broken")
           (mkError CopyError "copy image failed: manifest unknown")).
  reflexivity.
Defined.

(** ** Claims about the copy orchestration *)

(** C6. Whenever the engine is called and answers with an error, the
    result of [handleImages] is an error whose text is the engine's text
    behind the prefix [copy image failed: ], and the engine was called
    that one time only. *)
Theorem handleImages_copy_failure (W : World) (userParameters : UserParameters)
    (destRef srcRef : ImageReference) (destCtx srcCtx : SystemContext)
    (text : string) :
  CopyImage destRef srcRef destCtx srcCtx
    ∈ trace (handleImages W userParameters) ->
  copyImageError W destRef srcRef destCtx srcCtx = Some text ->
  value (handleImages W userParameters)
    = Some (mkError CopyError ("copy image failed: " +:+ text)) /\
  calls isCopyImage (trace (handleImages W userParameters)) = 1.
Proof.
  pose proof (credsReads_no_copy (SrcCreds userParameters)) as Hs.
  pose proof (credsReads_no_copy (DestCreds userParameters)) as Hd.
  pose proof (elem_of_credsReads (CopyImage destRef srcRef destCtx srcCtx)
                (SrcCreds userParameters)) as Hes.
  pose proof (elem_of_credsReads (CopyImage destRef srcRef destCtx srcCtx)
                (DestCreds userParameters)) as Hed.
  split_handleImages W userParameters;
    rewrite ?elem_of_app, ?elem_of_cons, ?elem_of_nil;
    intros Hin Herr;
    repeat match type of Hin with
      | _ \/ _ => destruct Hin as [Hin|Hin]
      end;
    try (apply Hes in Hin); try (apply Hed in Hin);
    try discriminate; try contradiction;
    injection Hin as -> -> -> ->;
    (split; [congruence|rewrite !calls_app, Hs, Hd; reflexivity]).
Qed.

(** The engine refuses the image [docker://repo/broken:v1]. *)
Lemma handleImages_copy_failure_witness :
  value (handleImages demoWorld brokenParameters)
    = Some (mkError CopyError "copy image failed: manifest unknown") /\
  calls isCopyImage (trace (handleImages demoWorld brokenParameters)) = 1.
Proof.
  apply (handleImages_copy_failure demoWorld brokenParameters
           (ParsedReference "docker://other/app:v1")
           (ParsedReference "docker://repo/broken:v1")
           (BuiltContext (mkImageOpts "docker://other/app:v1" ""))
           (BuiltContext (mkImageOpts "docker://repo/broken:v1" ""))
           "manifest unknown").
  - apply (list_elem_of_lookup_2 _ 1). reflexivity.
  - reflexivity.
Defined.

Lemma HandleImagesRun_eq (W : World) (up : UserParameters)
    (r r' : option error) (t t' : Trace) :
  HandleImagesRun W up r t -> r = r' -> t = t' -> HandleImagesRun W up r' t'.
Proof. by intros Hrun <- <-. Qed.

(** Every run of [handleImages] is one of the runs listed by
    [HandleImagesRun]. *)
Lemma handleImages_run (W : World) (userParameters : UserParameters) :
  HandleImagesRun W userParameters
    (value (handleImages W userParameters))
    (trace (handleImages W userParameters)).
Proof.
  split_handleImages W userParameters.
  all: rewrite ?app_nil_r.
  all: first
    [ apply RunSrcCreds; by rewrite Hsrc
    | eapply RunDestCreds; [by rewrite Hsrc|by rewrite Hdest]
    | eapply RunSrcRef; [by rewrite Hsrc|by rewrite Hdest|eassumption]
    | eapply RunDestRef;
        [by rewrite Hsrc|by rewrite Hdest|eassumption|eassumption]
    | eapply RunSrcContext;
        [by rewrite Hsrc|by rewrite Hdest|eassumption..]
    | eapply RunDestContext;
        [by rewrite Hsrc|by rewrite Hdest|eassumption..]
    | eapply RunPolicy;
        [by rewrite Hsrc|by rewrite Hdest|eassumption..]
    | eapply HandleImagesRun_eq;
        [ eapply RunCopy; [by rewrite Hsrc|by rewrite Hdest|eassumption..]
        | match goal with
          | Hcopy : copyImageError _ _ _ _ _ = _ |- _ =>
              unfold srcOptions, destOptions; rewrite Hcopy; reflexivity
          end
        | unfold resolvedTrace; rewrite <- !app_assoc; reflexivity ] ].
Qed.

Ltac run_cases W up :=
  let Hrun := fresh "Hrun" in
  pose proof (handleImages_run W up) as Hrun;
  unfold value, trace in *;
  destruct (handleImages W up) as [? ?]; simpl in Hrun;
  destruct Hrun; cbn [fst snd] in *.

Lemma parseCreds_error_kind (W : World) (creds : Creds) (e : error) :
  value (parseCreds W creds) = inl e -> exists k, kind e = ResolutionError k.
Proof.
  unfold parseCreds, GetSecret, splitSecret, value, bind, ret, tell. simpl.
  repeat case_decide; try discriminate;
    destruct (secretValue W _) as [text|raw]; simpl; try discriminate;
    repeat case_decide; simpl; try discriminate.
  - intros [= <-]. eauto.
  - destruct (unmarshalSecret W raw) as [text|m].
    + intros [= <-]. eauto.
    + destruct (m !! UsernameKey creds), (m !! PasswordKey creds);
        intros [= <-] || discriminate; eauto.
  - intros [= <-]. eauto.
Qed.

(** A rejected reference stops [handleImages] before the engine. *)
Lemma handleImages_rejected (W : World) (userParameters : UserParameters) :
  unrecognized W (SrcImage userParameters) \/
  unrecognized W (DestImage userParameters) ->
  calls isCopyImage (trace (handleImages W userParameters)) = 0 /\
  (exists e, value (handleImages W userParameters) = Some e /\
             (kind e = ReferenceError \/ exists k, kind e = ResolutionError k)) /\
  (forall srcCreds destCreds,
      value (parseCreds W (SrcCreds userParameters)) = inr srcCreds ->
      value (parseCreds W (DestCreds userParameters)) = inr destCreds ->
      exists text,
        value (handleImages W userParameters)
          = Some (mkError ReferenceError text) /\
        (parseImageNameError W (SrcImage userParameters) = Some text \/
         parseImageNameError W (SrcImage userParameters) = None /\
         parseImageNameError W (DestImage userParameters) = Some text)).
Proof.
  pose proof (credsReads_no_copy (SrcCreds userParameters)) as Hs.
  pose proof (credsReads_no_copy (DestCreds userParameters)) as Hd.
  pose proof (parseCreds_error_kind W (SrcCreds userParameters)) as Hks.
  pose proof (parseCreds_error_kind W (DestCreds userParameters)) as Hkd.
  unfold unrecognized.
  split_handleImages W userParameters.
  all: intros Hbad.
  all: try (exfalso; destruct Hbad as [Hbad|Hbad];
            apply is_Some_None in Hbad; exact Hbad).
  all: rewrite ?calls_app, ?Hs, ?Hd.
  all: split; [reflexivity|split].
  all: try (eexists; split; [reflexivity|];
            first [left; reflexivity | right; eauto]).
  all: intros srcCreds destCreds Hsc Hdc; try discriminate.
  all: eexists; split; [reflexivity|]; auto.
Qed.

(** Credentials come first: with a rejected reference the run still
    ends where a credential fails, and reaches the parser only when both
    sides resolved. *)
Lemma handleImages_rejected_order (W : World) (userParameters : UserParameters) :
  unrecognized W (SrcImage userParameters) \/
  unrecognized W (DestImage userParameters) ->
  (forall e,
      value (parseCreds W (SrcCreds userParameters)) = inl e ->
      handleImages W userParameters
      = (Some e, credsReads (SrcCreds userParameters))) /\
  (forall srcCreds e,
      value (parseCreds W (SrcCreds userParameters)) = inr srcCreds ->
      value (parseCreds W (DestCreds userParameters)) = inl e ->
      handleImages W userParameters
      = (Some e, credsReads (SrcCreds userParameters) ++
                 credsReads (DestCreds userParameters))) /\
  (forall srcCreds destCreds,
      value (parseCreds W (SrcCreds userParameters)) = inr srcCreds ->
      value (parseCreds W (DestCreds userParameters)) = inr destCreds ->
      trace (handleImages W userParameters)
      = credsReads (SrcCreds userParameters) ++
        credsReads (DestCreds userParameters) ++
        [Log ("SrcImage: " +:+ SrcImage userParameters +:+
              " DestImage: " +:+ DestImage userParameters)]).
Proof.
  unfold unrecognized. intros Hbad.
  assert (Hparsed : parseImageNameError W (SrcImage userParameters) = None ->
                    parseImageNameError W (DestImage userParameters) = None ->
                    False).
  { intros Hs Hd. rewrite Hs, Hd in Hbad.
    destruct Hbad as [Hnone|Hnone]; by apply is_Some_None in Hnone. }
  split; [|split].
  - intros e Hsrc.
    run_cases W userParameters;
      first [congruence|repeat f_equal; congruence].
  - intros srcCreds e Hsrc Hdest.
    run_cases W userParameters;
      first [congruence|repeat f_equal; congruence].
  - intros srcCreds destCreds Hsrc Hdest.
    run_cases W userParameters;
      first [congruence|reflexivity|by exfalso; apply Hparsed].
Qed.

(** C7, as stated, fails.  Credentials are resolved before any reference
    is parsed: with the source [ftp://host/path] and a source secret the
    store does not hold, [handleImages] ends with [SecretNotFound], not
    with a reference error.  And a [Delete] event whose properties name
    [ftp://host/path] does not fail at all. *)
Lemma unrecognized_scheme_counterexample :
  (unrecognized demoWorld (SrcImage ftpLockedParameters) /\
   failsWith (ResolutionError SecretNotFound)
     (handleImages demoWorld ftpLockedParameters) /\
   ~ failsWith ReferenceError (handleImages demoWorld ftpLockedParameters)) /\
  (unrecognized cfnWorld
     (SrcImage (eventParameters cfnWorld (mkEvent RequestDelete "res-1" "ftp"))) /\
   value (cfnHandler cfnWorld (mkEvent RequestDelete "res-1" "ftp"))
     = ("res-1", ∅, None)).
Proof.
  split; [split; [|split]|split].
  - by eexists.
  - eexists. split; reflexivity.
  - intros (e & He & Hkind). vm_compute in He.
    injection He as <-. discriminate.
  - by eexists.
  - reflexivity.
Qed.

(** C7, amended.  When the parser rejects the source or the destination
    reference, [handleImages] fails and the engine is never called.
    Credentials are resolved before references are parsed.  So when the
    source descriptor does not resolve, the run ends with that resolution
    error after the source's read; when the destination descriptor does
    not resolve, with that one after the two sides' reads; and when both
    resolve, with the parser's error, for the source if the source is
    rejected and for the destination otherwise, after the reads and the
    log line.  The pipeline handler then reports that error as the job's
    failure, once; the handler of a [Create] or [Update] event returns
    it; the handler of a [Delete] event looks at no reference and
    succeeds. *)
Theorem unrecognized_scheme_no_copy (W : World) (userParameters : UserParameters) :
  unrecognized W (SrcImage userParameters) \/
  unrecognized W (DestImage userParameters) ->
  calls isCopyImage (trace (handleImages W userParameters)) = 0 /\
  (exists e, value (handleImages W userParameters) = Some e /\
             (kind e = ReferenceError \/ exists k, kind e = ResolutionError k)) /\
  (forall srcCreds destCreds,
      value (parseCreds W (SrcCreds userParameters)) = inr srcCreds ->
      value (parseCreds W (DestCreds userParameters)) = inr destCreds ->
      exists text,
        value (handleImages W userParameters)
          = Some (mkError ReferenceError text) /\
        (parseImageNameError W (SrcImage userParameters) = Some text \/
         parseImageNameError W (SrcImage userParameters) = None /\
         parseImageNameError W (DestImage userParameters) = Some text)) /\
  (forall event, jobParameters W event = userParameters ->
      calls isCopyImage (trace (codePipelineHandler W event)) = 0 /\
      calls isPutJobFailure (trace (codePipelineHandler W event)) = 1 /\
      calls isPutJobSuccess (trace (codePipelineHandler W event)) = 0) /\
  (forall event,
      RequestType event = RequestCreate \/ RequestType event = RequestUpdate ->
      eventParameters W event = userParameters ->
      calls isCopyImage (trace (cfnHandler W event)) = 0 /\
      exists e, value (cfnHandler W event)
                = (PhysicalResourceID event, ∅, Some e)) /\
  (forall e,
      value (parseCreds W (SrcCreds userParameters)) = inl e ->
      handleImages W userParameters
      = (Some e, credsReads (SrcCreds userParameters)) /\
      exists k, kind e = ResolutionError k) /\
  (forall srcCreds e,
      value (parseCreds W (SrcCreds userParameters)) = inr srcCreds ->
      value (parseCreds W (DestCreds userParameters)) = inl e ->
      handleImages W userParameters
      = (Some e, credsReads (SrcCreds userParameters) ++
                 credsReads (DestCreds userParameters)) /\
      exists k, kind e = ResolutionError k) /\
  (forall srcCreds destCreds,
      value (parseCreds W (SrcCreds userParameters)) = inr srcCreds ->
      value (parseCreds W (DestCreds userParameters)) = inr destCreds ->
      trace (handleImages W userParameters)
      = credsReads (SrcCreds userParameters) ++
        credsReads (DestCreds userParameters) ++
        [Log ("SrcImage: " +:+ SrcImage userParameters +:+
              " DestImage: " +:+ DestImage userParameters)]) /\
  (forall event, jobParameters W event = userParameters ->
      exists e,
        value (handleImages W userParameters) = Some e /\
        PutJobFailureResult (JobID event) (Error e)
          ∈ trace (codePipelineHandler W event)) /\
  (forall event,
      RequestType event = RequestCreate \/ RequestType event = RequestUpdate ->
      eventParameters W event = userParameters ->
      value (cfnHandler W event)
      = (PhysicalResourceID event, ∅, value (handleImages W userParameters))) /\
  (forall event,
      RequestType event = RequestDelete ->
      eventParameters W event = userParameters ->
      cfnHandler W event
      = ((PhysicalResourceID event, ∅, None),
         [Log ("Event: " +:+ DumpsEvent W event)])).
Proof.
  intros Hbad.
  destruct (handleImages_rejected W userParameters Hbad)
    as (Hcopy & (e & He & Hkind) & Hparser).
  destruct (handleImages_rejected_order W userParameters Hbad)
    as (Hsrcfail & Hdestfail & Htrace).
  split; [exact Hcopy|]. split; [by exists e|]. split; [exact Hparser|].
  split; [|split; [|split; [|split; [|split; [|split; [|split]]]]]].
  8: { intros event Hdelete _. unfold cfnHandler.
       case_decide; [reflexivity|contradiction]. }
  7: { intros event Hrun <-. by rewrite cfnHandler_copy. }
  6: { intros event <-. exists e. split; [exact He|].
       rewrite codePipelineHandler_trace, He. unfold jobReport.
       rewrite !elem_of_cons, elem_of_app, !elem_of_cons. auto 10. }
  5: { exact Htrace. }
  4: { intros srcCreds e' Hsrc Hdest. split; [by eapply Hdestfail|].
       by eapply parseCreds_error_kind. }
  3: { intros e' Hsrc. split; [by apply Hsrcfail|].
       by eapply parseCreds_error_kind. }
  - intros event <-.
    destruct (handleImages_no_report W (jobParameters W event)) as [Hs Hf].
    rewrite codePipelineHandler_trace, He. unfold jobReport.
    rewrite !calls_cons, !calls_app, !calls_cons, Hcopy, Hs, Hf.
    destruct (putJobFailureResultError W _ _); done.
  - intros event Hrun <-. rewrite cfnHandler_copy by done. split.
    + change (calls isCopyImage
                (Log ("Event: " +:+ DumpsEvent W event)
                 :: Log ("Event: " +:+ DumpsEvent W event)
                 :: trace (handleImages W (eventParameters W event))) = 0).
      rewrite !calls_cons. exact Hcopy.
    + exists e. rewrite <- He. reflexivity.
Qed.

(** The source reference [ftp://host/path]: with no credentials, with a
    source secret the store does not hold, and in a [Delete] event. *)
Lemma unrecognized_scheme_no_copy_witness :
  (calls isCopyImage (trace (handleImages demoWorld ftpParameters)) = 0 /\
   failsWith ReferenceError (handleImages demoWorld ftpParameters)) /\
  handleImages demoWorld ftpLockedParameters
  = (Some (mkError (ResolutionError SecretNotFound) "ResourceNotFoundException"),
     [SecretRead "missing"]) /\
  cfnHandler cfnWorld (mkEvent RequestDelete "res-1" "ftp")
  = (("res-1", ∅, None), [Log "Event: Delete"]).
Proof.
  split; [|split].
  - destruct (unrecognized_scheme_no_copy demoWorld ftpParameters)
      as (Hcopy & _ & Hparser & _).
    { left. by eexists. }
    split; [exact Hcopy|].
    destruct (Hparser "" "" eq_refl eq_refl) as (text & Hvalue & _).
    eexists. split; [exact Hvalue|reflexivity].
  - destruct (unrecognized_scheme_no_copy demoWorld ftpLockedParameters)
      as (_ & _ & _ & _ & _ & Hsrcfail & _).
    { left. by eexists. }
    apply (Hsrcfail (mkError (ResolutionError SecretNotFound)
                       "ResourceNotFoundException")).
    reflexivity.
  - destruct (unrecognized_scheme_no_copy cfnWorld ftpParameters)
      as (_ & _ & _ & _ & _ & _ & _ & _ & _ & _ & Hdelete).
    { left. by eexists. }
    apply (Hdelete (mkEvent RequestDelete "res-1" "ftp")); reflexivity.
Defined.

(** ** Dispatch *)

Lemma lambda_Start_length {Ev : Type} (decode : string -> Ev)
    (handler : Ev -> M Response) (payloads : list string) :
  length (value (lambda_Start decode handler payloads)) = length payloads.
Proof.
  induction payloads as [|p rest IH]; [reflexivity|].
  cbn [lambda_Start]. rewrite !bind_value, ret_value.
  cbn [length]. by rewrite IH.
Qed.

Lemma lambda_Start_Forall {Ev : Type} (P : Response -> Prop)
    (decode : string -> Ev) (handler : Ev -> M Response)
    (payloads : list string) :
  (forall event, P (value (handler event))) ->
  Forall P (value (lambda_Start decode handler payloads)).
Proof.
  intros Hh. induction payloads as [|p rest IH]; [constructor|].
  cbn [lambda_Start]. rewrite !bind_value, ret_value.
  constructor; [apply Hh|exact IH].
Qed.

Lemma lambda_Start_calls {Ev : Type} (p : Effect -> bool)
    (decode : string -> Ev) (handler : Ev -> M Response)
    (payloads : list string) :
  (forall event, calls p (trace (handler event)) = 0) ->
  calls p (trace (lambda_Start decode handler payloads)) = 0.
Proof.
  intros Hh. induction payloads as [|q rest IH]; [reflexivity|].
  cbn [lambda_Start].
  rewrite !bind_trace, ret_trace, !calls_app, Hh, IH. reflexivity.
Qed.

Lemma cfnHandler_no_getenv (W : World) (name : string) (event : Event) :
  calls (isGetenv name) (trace (cfnHandler W event)) = 0.
Proof.
  destruct (decide (RequestType event = RequestCreate \/
                    RequestType event = RequestUpdate)) as [Hcopy|Hskip].
  - rewrite cfnHandler_copy by done.
    change (calls (isGetenv name)
              (Log ("Event: " +:+ DumpsEvent W event)
               :: Log ("Event: " +:+ DumpsEvent W event)
               :: trace (handleImages W (eventParameters W event))) = 0).
    rewrite !calls_cons.
    rewrite (calls_core (isGetenv name)
               (trace (handleImages W (eventParameters W event))));
      [reflexivity|intros []; simpl; congruence|apply handleImages_core].
  - unfold cfnHandler. repeat case_decide; try contradiction; reflexivity.
Qed.

Lemma codePipelineHandler_no_getenv (W : World) (name : string)
    (event : CodePipelineJobEvent) :
  calls (isGetenv name) (trace (codePipelineHandler W event)) = 0.
Proof.
  rewrite codePipelineHandler_trace, !calls_cons, calls_app.
  rewrite (calls_core (isGetenv name)
             (trace (handleImages W (jobParameters W event))));
    [|intros []; simpl; congruence|apply handleImages_core].
  unfold jobReport. destruct (value (handleImages W _)) as [e|].
  - destruct (putJobFailureResultError W _ _); reflexivity.
  - destruct (putJobSuccessResultError W _ _); reflexivity.
Qed.

Lemma main_run (W : World) (payloads : list string) :
  main W payloads =
    (value (if decide (default "" (environ W !! "INVOKER") = "CODEPIPELINE")
            then codePipeline W payloads else customResource W payloads),
     Getenv "INVOKER"
     :: trace (if decide (default "" (environ W !! "INVOKER") = "CODEPIPELINE")
               then codePipeline W payloads else customResource W payloads)).
Proof. reflexivity. Qed.

Lemma codePipeline_flow (W : World) (payloads : list string) :
  Forall (fun r => flowOf r = PipelineFlow) (value (codePipeline W payloads)).
Proof. apply lambda_Start_Forall. reflexivity. Qed.

Lemma customResource_flow (W : World) (payloads : list string) :
  Forall (fun r => flowOf r = ProvisioningFlow)
    (value (customResource W payloads)).
Proof. apply lambda_Start_Forall. reflexivity. Qed.

Lemma codePipeline_no_getenv (W : World) (name : string) (payloads : list string) :
  calls (isGetenv name) (trace (codePipeline W payloads)) = 0.
Proof.
  apply lambda_Start_calls. intros event.
  rewrite bind_trace, ret_trace, app_nil_r.
  apply codePipelineHandler_no_getenv.
Qed.

Lemma customResource_no_getenv (W : World) (name : string) (payloads : list string) :
  calls (isGetenv name) (trace (customResource W payloads)) = 0.
Proof.
  apply lambda_Start_calls. intros event.
  rewrite bind_trace, ret_trace, app_nil_r.
  apply cfnHandler_no_getenv.
Qed.

(** C8, as stated, fails: the flag is not read once per invocation.  A
    process that serves two invocations reads [INVOKER] once. *)
Lemma flag_read_counterexample :
  calls (isGetenv "INVOKER")
    (trace (main demoWorld ["scenario"; "broken"])) = 1 /\
  ~ (calls (isGetenv "INVOKER")
       (trace (main demoWorld ["scenario"; "broken"]))
     = length ["scenario"; "broken"]).
Proof.
  assert (Hone : calls (isGetenv "INVOKER")
                   (trace (main demoWorld ["scenario"; "broken"])) = 1)
    by (vm_compute; reflexivity).
  split; [exact Hone|]. rewrite Hone. discriminate.
Qed.

(** C8, amended.  [main] reads [INVOKER] exactly once, as its first
    action, however many invocations the process then serves; no handler
    reads it again.  Every invocation of the process is served by the
    flow chosen then: the pipeline flow when the value is
    [CODEPIPELINE], the provisioning flow otherwise.  No other variable
    of the environment takes part: a process whose environment agrees on
    [INVOKER] behaves the same. *)
Theorem main_dispatch (W : World) (payloads : list string) :
  calls (isGetenv "INVOKER") (trace (main W payloads)) = 1 /\
  head (trace (main W payloads)) = Some (Getenv "INVOKER") /\
  length (value (main W payloads)) = length payloads /\
  Forall (fun r => flowOf r = selectedFlow W) (value (main W payloads)) /\
  (forall env,
      env !! "INVOKER" = environ W !! "INVOKER" ->
      main (withEnviron env W) payloads = main W payloads) /\
  (forall environment stage wave,
      environ W = handlerEnvironment environment stage wave ->
      selectedFlow W = if stage || wave then PipelineFlow else ProvisioningFlow).
Proof.
  assert (Hvalue : value (main W payloads) =
            value (if decide (default "" (environ W !! "INVOKER") = "CODEPIPELINE")
                   then codePipeline W payloads else customResource W payloads))
    by reflexivity.
  assert (Htrace : trace (main W payloads) =
            Getenv "INVOKER"
            :: trace (if decide (default "" (environ W !! "INVOKER") = "CODEPIPELINE")
                      then codePipeline W payloads else customResource W payloads))
    by reflexivity.
  rewrite Hvalue, Htrace. unfold selectedFlow.
  split; [|split; [reflexivity|split; [|split; [|split]]]].
  - rewrite calls_cons.
    case_decide.
    + rewrite (codePipeline_no_getenv W "INVOKER" payloads). reflexivity.
    + rewrite (customResource_no_getenv W "INVOKER" payloads). reflexivity.
  - case_decide; apply lambda_Start_length.
  - case_decide; [apply codePipeline_flow|apply customResource_flow].
  - intros env Henv. rewrite !main_run.
    change (environ (withEnviron env W)) with env. rewrite Henv.
    case_decide; reflexivity.
  - intros environment stage wave ->.
    unfold handlerEnvironment, invoker, partOfPipeline.
    rewrite lookup_insert_eq. cbn [default].
    destruct (stage || wave); case_decide; done.
Qed.

(** A process in the pipeline deployment serving two jobs, and an
    environment that differs in another variable only. *)
Lemma main_dispatch_witness :
  calls (isGetenv "INVOKER")
    (trace (main demoWorld ["scenario"; "broken"])) = 1 /\
  main (withEnviron (<["LOG_LEVEL" := "debug"]> (environ demoWorld)) demoWorld)
       ["scenario"; "broken"]
    = main demoWorld ["scenario"; "broken"].
Proof.
  destruct (main_dispatch demoWorld ["scenario"; "broken"])
    as (Hone & _ & _ & _ & Henv & _).
  split; [exact Hone|]. apply Henv. reflexivity.
Defined.

(** ** Claims about decoding *)

(** C9, as stated, fails: nothing is rejected at the decode step.  On
    the payload [mistyped] the decoder reports an error after filling
    the two image fields; the pipeline handler copies the image and
    reports success all the same, and so does the handler of a [Create]
    event.  On the payload [{}] the decoder reports nothing and leaves
    the zero value, on which [handleImages] runs until the reference
    parser stops it. *)
Lemma decode_error_counterexample :
  ((unmarshalUserParameters demoWorld "mistyped").2
     = Some "json: cannot unmarshal number into Go struct field" /\
   calls isCopyImage
     (trace (codePipelineHandler demoWorld (mkJobEvent "job-1" "mistyped"))) = 1 /\
   calls isPutJobSuccess
     (trace (codePipelineHandler demoWorld (mkJobEvent "job-1" "mistyped"))) = 1 /\
   calls isCopyImage
     (trace (cfnHandler cfnWorld (mkEvent RequestCreate "res-1" "mistyped"))) = 1 /\
   value (cfnHandler cfnWorld (mkEvent RequestCreate "res-1" "mistyped"))
     = ("res-1", ∅, None)) /\
  (unmarshalUserParameters demoWorld "{}" = (zeroUserParameters, None) /\
   failsWith ReferenceError (handleImages demoWorld zeroUserParameters) /\
   calls isPutJobFailure
     (trace (codePipelineHandler demoWorld (mkJobEvent "job-1" "{}"))) = 1).
Proof.
  repeat split; try (vm_compute; reflexivity).
  eexists. split; [vm_compute; reflexivity|reflexivity].
Qed.

(** C9, amended.  Each handler decodes the payload into
    [UserParameters] and hands that structure, and nothing else of the
    payload, to [handleImages]; the decoder's error is dropped and no
    field is checked.  So the copy logic always runs on whatever the
    decoder left (for a pipeline job, and for a [Create] or [Update]
    event), and a decoder that leaves the same structures but reports
    other errors, or none, changes nothing. *)
Theorem decode_error_ignored (W : World) :
  (forall event,
      trace (codePipelineHandler W event) =
        Log ("Event log: " +:+ DumpsJobEvent W event)
        :: Log ("parameters obtained: " +:+
                formatUserParameters W (jobParameters W event))
        :: trace (handleImages W (jobParameters W event))
        ++ jobReport W (JobID event) (jobParameters W event)
             (value (handleImages W (jobParameters W event)))) /\
  (forall event,
      RequestType event = RequestCreate \/ RequestType event = RequestUpdate ->
      cfnHandler W event =
        ((PhysicalResourceID event, ∅,
          value (handleImages W (eventParameters W event))),
         Log ("Event: " +:+ DumpsEvent W event)
         :: Log ("Event: " +:+ DumpsEvent W event)
         :: trace (handleImages W (eventParameters W event)))) /\
  (forall dec : string -> UserParameters * option string,
      (forall payload, (dec payload).1 = (unmarshalUserParameters W payload).1) ->
      (forall event, codePipelineHandler (withDecoder dec W) event
                     = codePipelineHandler W event) /\
      (forall event, cfnHandler (withDecoder dec W) event
                     = cfnHandler W event)).
Proof.
  split; [apply codePipelineHandler_trace|].
  split; [apply cfnHandler_copy|].
  intros dec Hdec. split.
  - intros event. unfold codePipelineHandler.
    change (unmarshalUserParameters (withDecoder dec W)) with dec.
    rewrite Hdec. reflexivity.
  - intros event. unfold cfnHandler.
    change (unmarshalUserParameters (withDecoder dec W)) with dec.
    rewrite Hdec. reflexivity.
Qed.

(** A decoder that reports no error at all serves the payload
    [mistyped] as the real one does. *)
Lemma decode_error_ignored_witness :
  codePipelineHandler
    (withDecoder (fun payload => ((demoUnmarshalUserParameters payload).1, None))
       demoWorld)
    (mkJobEvent "job-1" "mistyped")
  = codePipelineHandler demoWorld (mkJobEvent "job-1" "mistyped").
Proof.
  destruct (decode_error_ignored demoWorld) as (_ & _ & Hdec).
  destruct (Hdec (fun payload => ((demoUnmarshalUserParameters payload).1, None)))
    as [Hjob _]; [reflexivity|].
  apply Hjob.
Defined.

(** ** Claims about the pipeline handler's result *)


(** ** Further properties: the property helpers of lambda/main.go *)

(** X1. [getStrProps] answers with a string exactly when the key is bound
    to a string, and then with that string; a missing key, [nil] and every
    other kind of value give the error [can't get <key>]. *)
Theorem getStrProps_string_iff (m : gmap string GoValue) (k : string) :
  (forall v, getStrProps m k = inr v <-> m !! k = Some (VString v)) /\
  ((forall v, m !! k <> Some (VString v)) ->
   getStrProps m k = inl ("can't get " +:+ k)).
Proof.
  unfold getStrProps. split.
  - intros v. destruct (m !! k) as [[]|]; simpl; split; congruence.
  - intros Hno. destruct (m !! k) as [[]|]; simpl; try reflexivity.
    exfalso. by eapply Hno.
Qed.

(** The properties of the example hold a string, a number and a null. *)
Lemma getStrProps_string_iff_witness :
  getStrProps demoProperties "SrcImage" = inr "docker://repo/app:v1" /\
  getStrProps demoProperties "Retries" = inl "can't get Retries" /\
  getStrProps demoProperties "Note" = inl "can't get Note" /\
  getStrProps demoProperties "DestImage" = inl "can't get DestImage".
Proof.
  split; [|split; [|split]].
  - apply (proj1 (getStrProps_string_iff demoProperties "SrcImage")).
    reflexivity.
  - apply (proj2 (getStrProps_string_iff demoProperties "Retries")).
    intros v. vm_compute. discriminate.
  - apply (proj2 (getStrProps_string_iff demoProperties "Note")).
    intros v. vm_compute. discriminate.
  - apply (proj2 (getStrProps_string_iff demoProperties "DestImage")).
    intros v. vm_compute. discriminate.
Defined.

(** X2. [getStrPropsDefault] gives the default for a missing key and for
    a key bound to [nil], agrees with [getStrProps] wherever that
    succeeds, and fails, with the same text as [getStrProps], only on a
    key bound to a value that is neither [nil] nor a string. *)
Theorem getStrPropsDefault_cases (m : gmap string GoValue) (k d : string) :
  (m !! k = None \/ m !! k = Some VNil -> getStrPropsDefault m k d = inr d) /\
  (forall v, getStrProps m k = inr v -> getStrPropsDefault m k d = inr v) /\
  (forall text, getStrPropsDefault m k d = inl text ->
     getStrProps m k = inl text /\
     exists x, m !! k = Some x /\ x <> VNil /\ forall v, x <> VString v).
Proof.
  unfold getStrPropsDefault, getStrProps. split; [|split].
  - intros [-> | ->]; reflexivity.
  - intros v. destruct (m !! k) as [[]|]; simpl; congruence.
  - intros text. destruct (m !! k) as [x|]; [|discriminate].
    destruct x; simpl; try discriminate;
      (intros Htext; split; [exact Htext|]; eexists; split; [reflexivity|];
       split; [discriminate|intros v; discriminate]).
Qed.

Lemma getStrPropsDefault_cases_witness :
  getStrPropsDefault demoProperties "Note" "none" = inr "none" /\
  getStrPropsDefault demoProperties "DestImage" "none" = inr "none" /\
  getStrPropsDefault demoProperties "SrcImage" "none"
    = inr "docker://repo/app:v1".
Proof.
  destruct (getStrPropsDefault_cases demoProperties "Note" "none")
    as (Hnil & _ & _).
  destruct (getStrPropsDefault_cases demoProperties "DestImage" "none")
    as (Hmissing & _ & _).
  destruct (getStrPropsDefault_cases demoProperties "SrcImage" "none")
    as (_ & Hstring & _).
  split; [apply Hnil; right; reflexivity|].
  split; [apply Hmissing; left; reflexivity|].
  apply Hstring. reflexivity.
Defined.

(** ** Further properties: start-up *)

(** X3. [init] sets the log level exactly once, as its last call.  With
    [LOG_LEVEL] not set the level is [InfoLevel].  With [LOG_LEVEL] set,
    the empty string included, the level is the one [ParseLevel] returned,
    also when it returned an error; in that case, and only then, the
    error is logged first. *)
Theorem init_sets_level_once {Level : Type} (InfoLevel : Level)
    (ParseLevel : string -> Level * option string) (W : World) :
  length (List.filter isSetLevel (init InfoLevel ParseLevel W)) = 1 /\
  (environ W !! EnvLogLevel = None ->
     init InfoLevel ParseLevel W = [SetLevel InfoLevel]) /\
  (forall s, environ W !! EnvLogLevel = Some s ->
     last (init InfoLevel ParseLevel W) = Some (SetLevel (ParseLevel s).1) /\
     (forall text,
         Errorf ("error parsing LOG_LEVEL: " +:+ text)
           ∈ init InfoLevel ParseLevel W
         <-> (ParseLevel s).2 = Some text)).
Proof.
  unfold init. split; [|split].
  - destruct (environ W !! EnvLogLevel) as [s|]; [|reflexivity].
    destruct (ParseLevel s) as [lvl [text|]]; reflexivity.
  - intros ->. reflexivity.
  - intros s ->. destruct (ParseLevel s) as [lvl [text|]]; simpl.
    + split; [reflexivity|]. intros text'.
      rewrite !elem_of_cons, elem_of_nil. split.
      * intros [Heq|[Heq|[]]]; [|discriminate].
        unfold EnvLogLevel in Heq. simpl in Heq. by simplify_eq.
      * intros [= ->]. left. reflexivity.
    + split; [reflexivity|]. intros text'.
      rewrite elem_of_cons, elem_of_nil. split.
      * intros [Heq|[]]. discriminate.
      * discriminate.
Qed.

(** A process started with [LOG_LEVEL=verbose], which logrus does not
    know, and one started with [LOG_LEVEL] set to the empty string. *)
Lemma init_sets_level_once_witness :
  init 4 demoParseLevel
    (withEnviron (<["LOG_LEVEL" := "verbose"]> ∅) demoWorld)
  = [Errorf "error parsing LOG_LEVEL: not a valid logrus Level: verbose";
     SetLevel 0] /\
  last (init 4 demoParseLevel (withEnviron (<["LOG_LEVEL" := ""]> ∅) demoWorld))
  = Some (SetLevel 0) /\
  init 4 demoParseLevel demoWorld = [SetLevel 4].
Proof.
  split; [reflexivity|]. split.
  - destruct (init_sets_level_once 4 demoParseLevel
                (withEnviron (<["LOG_LEVEL" := ""]> ∅) demoWorld))
      as (_ & _ & Hset).
    destruct (Hset "" eq_refl) as [Hlast _]. exact Hlast.
  - destruct (init_sets_level_once 4 demoParseLevel demoWorld)
      as (_ & Hunset & _).
    apply Hunset. reflexivity.
Defined.

(** ** Further properties: the deployment side *)

Lemma string_app_length (s t : string) :
  String.length (s +:+ t) = String.length s + String.length t.
Proof. induction s as [|a s IH]; simpl; [reflexivity|]. by rewrite IH. Qed.

Lemma string_app_assoc (s1 s2 s3 : string) :
  (s1 +:+ s2) +:+ s3 = s1 +:+ s2 +:+ s3.
Proof.
  induction s1 as [|a s1 IH]; [reflexivity|].
  change (String a ((s1 +:+ s2) +:+ s3) = String a (s1 +:+ s2 +:+ s3)).
  by rewrite IH.
Qed.

Lemma string_app_inv_tail (s1 s2 t : string) :
  s1 +:+ t = s2 +:+ t -> s1 = s2.
Proof.
  revert s2. induction s1 as [|a s1 IH]; intros [|b s2] Heq.
  - reflexivity.
  - apply (f_equal String.length) in Heq.
    rewrite !string_app_length in Heq. simpl in Heq. lia.
  - apply (f_equal String.length) in Heq.
    rewrite !string_app_length in Heq. simpl in Heq. lia.
  - injection Heq as -> Heq. f_equal. by apply IH.
Qed.

(** X4. A docker image name is recovered from its uri: different names
    give different uris, and no docker uri is the uri of an S3 archive. *)
Theorem DockerImageName_uri_inj (name1 name2 p : string) (ref : option string) :
  (DockerImageName_uri name1 = DockerImageName_uri name2 -> name1 = name2) /\
  DockerImageName_uri name1 <> S3ArchiveName_uri p ref.
Proof.
  unfold DockerImageName_uri, S3ArchiveName_uri. split.
  - intros Heq. simpl in Heq. by simplify_eq.
  - simpl. discriminate.
Qed.

(** X5. An S3 archive name with the empty string for [ref] is the one
    with no [ref]: nothing is appended, no colon either.  A [ref] that is
    not empty is appended behind one colon; so the colon does not tell
    where the path ends: a path [p:q] with ref [r] and the path [p] with
    ref [q:r] are the same uri. *)
Theorem S3ArchiveName_ref (p q r : string) :
  S3ArchiveName_uri p (Some "") = S3ArchiveName_uri p None /\
  S3ArchiveName_uri p None = "s3://" +:+ p /\
  (r <> "" -> S3ArchiveName_uri p (Some r) = "s3://" +:+ p +:+ ":" +:+ r) /\
  (r <> "" ->
   S3ArchiveName_uri (p +:+ ":" +:+ q) (Some r)
   = S3ArchiveName_uri p (Some (q +:+ ":" +:+ r))).
Proof.
  unfold S3ArchiveName_uri, S3ArchiveName_name.
  split; [reflexivity|]. split; [reflexivity|]. split.
  - intros Hr. case_decide; [contradiction|reflexivity].
  - intros Hr. case_decide; [contradiction|].
    case_decide as Hqr.
    + destruct q; discriminate.
    + f_equal. by rewrite string_app_assoc.
Qed.

(** The name of the test suite: [bucket/nginx.tar] with ref
    [nginx:latest]. *)
Lemma S3ArchiveName_ref_witness :
  S3ArchiveName_uri "bucket/nginx.tar" (Some "nginx:latest")
  = "s3://bucket/nginx.tar:nginx:latest" /\
  S3ArchiveName_uri "bucket/nginx.tar:nginx" (Some "latest")
  = S3ArchiveName_uri "bucket/nginx.tar" (Some "nginx:latest").
Proof.
  split.
  - apply (proj1 (proj2 (proj2
      (S3ArchiveName_ref "bucket/nginx.tar" "" "nginx:latest")))).
    discriminate.
  - apply (proj2 (proj2 (proj2
      (S3ArchiveName_ref "bucket/nginx.tar" "nginx" "latest")))).
    discriminate.
Defined.

(** X6. What [formatCredentials] sends to the handler: nothing at all
    without credentials; the plain text as [userName:password] exactly
    when plain text is given; the secret's ARN exactly when a secret is
    given; and key names only together with an ARN.  Plain text and a
    secret given together are both sent. *)
Theorem formatCredentials_fields (creds : option ICredentials) :
  formatCredentials None = mkLambdaCredentials None None None None /\
  (forall text,
      plainText (formatCredentials creds) = Some text <->
      exists pt, plainTextOf creds = Some pt /\
                 text = userName pt +:+ ":" +:+ password pt) /\
  (forall arn,
      secretArn (formatCredentials creds) = Some arn <->
      exists sm, secretManagerOf creds = Some sm /\ arn = secret_secretArn sm) /\
  (is_Some (usernameKey (formatCredentials creds)) \/
   is_Some (passwordKey (formatCredentials creds)) ->
   is_Some (secretArn (formatCredentials creds))).
Proof.
  split; [reflexivity|]. unfold formatCredentials. simpl. split; [|split].
  - intros text. destruct (plainTextOf creds) as [pt|]; split.
    + intros [= <-]. eauto.
    + intros (pt' & [= <-] & ->). reflexivity.
    + discriminate.
    + intros (pt' & Hpt & _). discriminate.
  - intros arn. destruct (secretManagerOf creds) as [sm|]; split.
    + intros [= <-]. eauto.
    + intros (sm' & [= <-] & ->). reflexivity.
    + discriminate.
    + intros (sm' & Hsm & _). discriminate.
  - destruct (secretManagerOf creds) as [sm|]; [eauto|].
    intros [[x Hx]|[x Hx]]; discriminate.
Qed.

(** X7. The environment of the deployed function: [INVOKER] is always
    the value computed from stage and wave, whatever the user's
    environment says about it, and every other variable of the user's
    environment reaches the function unchanged. *)
Theorem handlerEnvironment_lookup (environment : gmap string string)
    (stage wave : bool) (name : string) :
  handlerEnvironment environment stage wave !! "INVOKER"
    = Some (invoker stage wave) /\
  (name <> "INVOKER" ->
   handlerEnvironment environment stage wave !! name = environment !! name) /\
  (invoker stage wave = "CODEPIPELINE" <-> stage = true \/ wave = true).
Proof.
  unfold handlerEnvironment. split; [apply lookup_insert_eq|]. split.
  - intros Hname. by apply lookup_insert_ne.
  - unfold invoker, partOfPipeline.
    destruct stage, wave; simpl; split; try discriminate; auto;
      intros [?|?]; discriminate.
Qed.

(** A user environment that tries to set [INVOKER] itself. *)
Lemma handlerEnvironment_lookup_witness :
  handlerEnvironment
    (<["INVOKER" := "CODEPIPELINE"]> (<["LOG_LEVEL" := "debug"]> ∅))
    false false !! "LOG_LEVEL" = Some "debug" /\
  handlerEnvironment
    (<["INVOKER" := "CODEPIPELINE"]> (<["LOG_LEVEL" := "debug"]> ∅))
    false false !! "INVOKER" = Some "CLOUDFORMATION".
Proof.
  destruct (handlerEnvironment_lookup
              (<["INVOKER" := "CODEPIPELINE"]> (<["LOG_LEVEL" := "debug"]> ∅))
              false false "LOG_LEVEL") as (Hinvoker & Hother & _).
  split; [|exact Hinvoker].
  rewrite Hother by discriminate. reflexivity.
Defined.

(** Plain text and a key-value secret given together. *)
Lemma formatCredentials_fields_witness :
  formatCredentials
    (Some (mkCredentials (Some (mkPlainText "u" "p"))
             (Some (mkSecret "arn:kv" (Some "username") None))))
  = mkLambdaCredentials (Some "u:p") (Some "arn:kv") (Some "username") None /\
  is_Some (secretArn (formatCredentials
    (Some (mkCredentials (Some (mkPlainText "u" "p"))
             (Some (mkSecret "arn:kv" (Some "username") None)))))).
Proof.
  split; [reflexivity|].
  apply (proj2 (proj2 (proj2 (formatCredentials_fields
    (Some (mkCredentials (Some (mkPlainText "u" "p"))
             (Some (mkSecret "arn:kv" (Some "username") None)))))))).
  left. by eexists.
Defined.

Lemma renderSingletonUuid_resolved (isUnresolved : N -> bool) (n : N) :
  n <> 0%N -> isUnresolved n = false ->
  renderSingletonUuid isUnresolved (Some n)
  = inr ("bd07c930-edb9-4112-a20f-03f096f53666-" +:+ pretty n +:+ "MiB").
Proof.
  intros Hn Hres. unfold renderSingletonUuid.
  case_decide; [contradiction|]. rewrite Hres. reflexivity.
Qed.

(** X8. The uuid of the singleton function tells memory limits apart:
    two deployments whose limits are resolved safe integers get the same
    uuid only if their limits, after the default of 512, are equal.  In
    particular no limit and the limit 512 share one function, and the
    limit 0 is the only one whose uuid carries no suffix. *)
Theorem singletonUuid_inj (isUnresolved : N -> bool) (limit1 limit2 : option N) :
  (default 512 limit1 <= maxSafeInteger)%N ->
  (default 512 limit2 <= maxSafeInteger)%N ->
  isUnresolved (default 512%N limit1) = false ->
  isUnresolved (default 512%N limit2) = false ->
  (singletonUuid isUnresolved limit1 = singletonUuid isUnresolved limit2
   <-> default 512%N limit1 = default 512%N limit2) /\
  (singletonUuid isUnresolved limit1
   = inr "bd07c930-edb9-4112-a20f-03f096f53666"
   <-> limit1 = Some 0%N).
Proof.
  intros _ _ Hres1 Hres2. unfold singletonUuid. split.
  - split; [|by intros ->].
    destruct (decide (default 512%N limit1 = 0%N)) as [Hz1|Hz1];
      destruct (decide (default 512%N limit2 = 0%N)) as [Hz2|Hz2].
    + congruence.
    + rewrite Hz1, (renderSingletonUuid_resolved _ _ Hz2 Hres2).
      intros Heq. simpl in Heq. simplify_eq.
    + rewrite Hz2, (renderSingletonUuid_resolved _ _ Hz1 Hres1).
      intros Heq. simpl in Heq. simplify_eq.
    + rewrite (renderSingletonUuid_resolved _ _ Hz1 Hres1),
        (renderSingletonUuid_resolved _ _ Hz2 Hres2).
      intros Heq. simplify_eq.
      apply string_app_inv_tail in Heq. by apply (inj pretty).
  - split.
    + destruct (decide (default 512%N limit1 = 0%N)) as [Hz1|Hz1].
      * intros _. destruct limit1 as [n|]; simpl in Hz1; [by subst|].
        discriminate.
      * rewrite (renderSingletonUuid_resolved _ _ Hz1 Hres1).
        intros Heq. simplify_eq.
    + intros ->. reflexivity.
Qed.

(** No limit, the limit 512 and the limit 1024. *)
Lemma singletonUuid_inj_witness :
  singletonUuid (fun _ => false) None = singletonUuid (fun _ => false) (Some 512%N) /\
  singletonUuid (fun _ => false) None <> singletonUuid (fun _ => false) (Some 1024%N).
Proof.
  split.
  - apply (proj1 (singletonUuid_inj (fun _ => false) None (Some 512%N)
                   ltac:(vm_compute; discriminate) ltac:(vm_compute; discriminate)
                   eq_refl eq_refl)).
    reflexivity.
  - intros Heq.
    apply (proj1 (singletonUuid_inj (fun _ => false) None (Some 1024%N)
                    ltac:(vm_compute; discriminate) ltac:(vm_compute; discriminate)
                    eq_refl eq_refl)) in Heq.
    discriminate.
Defined.

(** X9. Building the uuid fails exactly when the limit, after the
    default of 512, is not zero and is an unresolved token; the error is
    then the message about tokens.  With no limit given the uuid ends in
    [-512MiB]. *)
Theorem singletonUuid_token (isUnresolved : N -> bool) (limit : option N) :
  (forall message,
      singletonUuid isUnresolved limit = inl message <->
      default 512%N limit <> 0%N /\
      isUnresolved (default 512%N limit) = true /\
      message = tokenError) /\
  (isUnresolved 512%N = false ->
   singletonUuid isUnresolved None
   = inr "bd07c930-edb9-4112-a20f-03f096f53666-512MiB").
Proof.
  unfold singletonUuid, renderSingletonUuid. split.
  - intros message. case_decide as Hz.
    + split; [discriminate|]. intros (Hnz & _). contradiction.
    + destruct (isUnresolved (default 512%N limit)); split.
      * intros [= <-]. done.
      * intros (_ & _ & ->). reflexivity.
      * discriminate.
      * intros (_ & Hfalse & _). discriminate.
  - intros Hres. cbn [default].
    destruct (decide (512%N = 0%N)) as [Hz|_]; [discriminate Hz|].
    rewrite Hres. vm_compute. reflexivity.
Qed.

Lemma singletonUuid_token_witness :
  singletonUuid (fun n => bool_decide (n = 7%N)) (Some 7%N) = inl tokenError /\
  singletonUuid (fun n => bool_decide (n = 7%N)) None
  = inr "bd07c930-edb9-4112-a20f-03f096f53666-512MiB".
Proof.
  destruct (singletonUuid_token (fun n => bool_decide (n = 7%N)) (Some 7%N))
    as [Hthrows _].
  destruct (singletonUuid_token (fun n => bool_decide (n = 7%N)) None)
    as [_ Hdefault].
  split; [|by apply Hdefault].
  apply Hthrows. split; [discriminate|]. split; reflexivity.
Defined.

(** X10. [tryBundle] answers [true] in two cases only: the prebuilt
    function was wanted and fetched, or both probes returned without an
    error and the build command returned.  The exit status of the build
    plays no part: a build that ends with a failure status is still
    accepted. *)
Theorem tryBundle_true_iff (H : BuildHost) :
  (tryBundle H).1 = true <->
  (shouldUsePrebuiltLambda H = true /\ installReturned H = true) \/
  (goVersion H = SpawnReturned false /\
   makeVersion H = SpawnReturned false /\
   exists status, makeLambda H = Some status).
Proof.
  unfold tryBundle, getPrebuiltLambda, probeAndBuild, buildLocally.
  destruct H as [use inst go mk build]; simpl.
  destruct use, inst, go as [[]|], mk as [[]|], build as [status|]; simpl;
    (split; [intros Hyp|intros [[? ?]|(? & ? & [? ?])]]);
    try discriminate; try reflexivity;
    first [ left; split; reflexivity
          | right; split; [reflexivity|split; [reflexivity|eexists; reflexivity]] ].
Qed.

(** A machine with go and make whose build ends with status 2. *)
Lemma tryBundle_true_iff_witness : (tryBundle demoBuildHost).1 = true.
Proof.
  apply (proj2 (tryBundle_true_iff demoBuildHost)).
  right. split; [reflexivity|]. split; [reflexivity|]. by exists 2%Z.
Defined.

(** X11. The child processes of [tryBundle] follow its short cuts: the
    install script runs only when the prebuilt function is wanted, and
    when it succeeds nothing else runs; make is probed only after go was
    found; the build starts only after both probes passed, and after a
    fetch that was not wanted or failed. *)
Theorem tryBundle_calls (H : BuildHost) :
  (ExecInstall ∈ (tryBundle H).2 <-> shouldUsePrebuiltLambda H = true) /\
  (shouldUsePrebuiltLambda H = true -> installReturned H = true ->
   (tryBundle H).2 = [ExecInstall]) /\
  (SpawnMakeVersion ∈ (tryBundle H).2 -> goVersion H = SpawnReturned false) /\
  (SpawnMakeLambda ∈ (tryBundle H).2 ->
   goVersion H = SpawnReturned false /\
   makeVersion H = SpawnReturned false /\
   (shouldUsePrebuiltLambda H = false \/ installReturned H = false)).
Proof.
  unfold tryBundle, getPrebuiltLambda, probeAndBuild, buildLocally.
  destruct H as [use inst go mk build]; simpl.
  rewrite !list_elem_of_In.
  destruct use, inst, go as [[]|], mk as [[]|], build as [status|]; simpl;
    intuition (discriminate || auto).
Qed.

(** A machine that wants the prebuilt function and gets it. *)
Lemma tryBundle_calls_witness :
  tryBundle (mkBuildHost true true SpawnThrew SpawnThrew None)
  = (true, [ExecInstall]).
Proof.
  destruct (tryBundle_calls (mkBuildHost true true SpawnThrew SpawnThrew None))
    as (_ & Honly & _).
  apply injective_projections; simpl.
  - reflexivity.
  - apply Honly; reflexivity.
Defined.

(** ** Further properties: the copy orchestration and the two flows *)

Lemma calls_resolvedTrace (p : Effect -> bool) (up : UserParameters) :
  (forall id, p (SecretRead id) = false) ->
  (forall line, p (Log line) = false) ->
  calls p (resolvedTrace up) = 0 /\
  calls p (credsReads (SrcCreds up)) = 0 /\
  calls p (credsReads (DestCreds up)) = 0.
Proof.
  intros Hread Hlog.
  assert (Hcreds : forall c, calls p (credsReads c) = 0).
  { intros c. unfold credsReads. case_decide; [|reflexivity].
    rewrite calls_cons, Hread. reflexivity. }
  unfold resolvedTrace.
  rewrite !calls_app, !Hcreds, calls_cons, Hlog. done.
Qed.

(** X12. A credential that does not resolve ends [handleImages] at once,
    with that error.  After a failure on the source side the destination
    descriptor is not looked at: the trace holds the source's secret read
    and nothing else.  After a failure on the destination side the trace
    holds the two sides' reads: no log line, no parsing, no copy. *)
Theorem handleImages_resolution_failure (W : World)
    (userParameters : UserParameters) (e : error) :
  (value (parseCreds W (SrcCreds userParameters)) = inl e ->
   handleImages W userParameters
   = (Some e, credsReads (SrcCreds userParameters))) /\
  (forall srcCreds,
      value (parseCreds W (SrcCreds userParameters)) = inr srcCreds ->
      value (parseCreds W (DestCreds userParameters)) = inl e ->
      handleImages W userParameters
      = (Some e, credsReads (SrcCreds userParameters) ++
                 credsReads (DestCreds userParameters))).
Proof.
  pose proof (handleImages_run W userParameters) as Hrun.
  unfold value, trace in *.
  destruct (handleImages W userParameters) as [r t]. simpl in Hrun.
  split.
  - intros Hsrc. destruct Hrun; first [congruence|repeat f_equal; congruence].
  - intros srcCreds Hsrc Hdest.
    destruct Hrun; first [congruence|repeat f_equal; congruence].
Qed.

(** The source secret [missing] is not in the store: the destination is
    never looked at. *)
Lemma handleImages_resolution_failure_witness :
  handleImages demoWorld ftpLockedParameters
  = (Some (mkError (ResolutionError SecretNotFound) "ResourceNotFoundException"),
     [SecretRead "missing"]).
Proof.
  apply (proj1 (handleImages_resolution_failure demoWorld ftpLockedParameters
                  (mkError (ResolutionError SecretNotFound)
                     "ResourceNotFoundException"))).
  reflexivity.
Defined.

(** X13. The two sides are never crossed.  Whenever the engine is
    called, its destination reference and context come from [DestImage]
    and the resolved [DestCreds], its source reference and context from
    [SrcImage] and the resolved [SrcCreds]. *)
Theorem handleImages_sides (W : World) (userParameters : UserParameters)
    (destRef srcRef : ImageReference) (destCtx srcCtx : SystemContext) :
  CopyImage destRef srcRef destCtx srcCtx
    ∈ trace (handleImages W userParameters) ->
  destRef = ParsedReference (DestImage userParameters) /\
  srcRef = ParsedReference (SrcImage userParameters) /\
  optsUri (ctxOpts destCtx) = DestImage userParameters /\
  optsUri (ctxOpts srcCtx) = SrcImage userParameters /\
  value (parseCreds W (DestCreds userParameters))
    = inr (optsCreds (ctxOpts destCtx)) /\
  value (parseCreds W (SrcCreds userParameters))
    = inr (optsCreds (ctxOpts srcCtx)).
Proof.
  run_cases W userParameters; unfold resolvedTrace;
    rewrite ?elem_of_app, ?elem_of_cons, ?elem_of_nil;
    intros Hin;
    repeat match type of Hin with
      | _ \/ _ => destruct Hin as [Hin|Hin]
      end;
    try (apply elem_of_credsReads in Hin);
    try discriminate; try contradiction.
  injection Hin as -> -> -> ->. simpl. auto 10.
Qed.

(** The scenario of the specification: the plain text [u:p] goes to the
    source side, the destination stays anonymous. *)
Lemma handleImages_sides_witness :
  value (parseCreds demoWorld (SrcCreds scenarioParameters)) = inr "u:p" /\
  value (parseCreds demoWorld (DestCreds scenarioParameters)) = inr "".
Proof.
  destruct (handleImages_sides demoWorld scenarioParameters
              (ParsedReference "docker://other/app:v1")
              (ParsedReference "docker://repo/app:v1")
              (BuiltContext (mkImageOpts "docker://other/app:v1" ""))
              (BuiltContext (mkImageOpts "docker://repo/app:v1" "u:p")))
    as (_ & _ & _ & _ & Hdest & Hsrc).
  { apply (list_elem_of_lookup_2 _ 1). reflexivity. }
  split; [exact Hsrc|exact Hdest].
Defined.

(** X14. The policy context is destroyed exactly as often as the engine
    is called, which is at most once; when the engine was called, the
    destruction is the last effect of the run, on success and on failure
    of the copy alike. *)
Theorem handleImages_policy_released (W : World) (userParameters : UserParameters) :
  calls isPolicyDestroy (trace (handleImages W userParameters))
  = calls isCopyImage (trace (handleImages W userParameters)) /\
  calls isCopyImage (trace (handleImages W userParameters)) <= 1 /\
  (calls isCopyImage (trace (handleImages W userParameters)) = 1 ->
   last (trace (handleImages W userParameters)) = Some PolicyDestroy).
Proof.
  destruct (calls_resolvedTrace isPolicyDestroy userParameters)
    as (Hd & Hds & Hdd); [done..|].
  destruct (calls_resolvedTrace isCopyImage userParameters)
    as (Hc & Hcs & Hcd); [done..|].
  run_cases W userParameters;
    rewrite ?calls_app, ?Hd, ?Hds, ?Hdd, ?Hc, ?Hcs, ?Hcd;
    try (split; [reflexivity|split; [lia|discriminate]]).
  split; [reflexivity|]. split; [unfold calls; simpl; lia|]. intros _.
  rewrite last_app. reflexivity.
Qed.

(** A copy the engine refuses still releases the policy context. *)
Lemma handleImages_policy_released_witness :
  last (trace (handleImages demoWorld brokenParameters)) = Some PolicyDestroy.
Proof.
  apply (proj2 (proj2 (handleImages_policy_released demoWorld brokenParameters))).
  reflexivity.
Defined.

(** X15. The secret-store reads of a run are the source's read, if its
    descriptor has a secret identifier, followed by the destination's, if
    the source resolved and the destination's descriptor has one: never
    more than two reads, and none repeated. *)
Theorem handleImages_secret_reads (W : World) (userParameters : UserParameters) :
  List.filter isSecretRead (trace (handleImages W userParameters))
  = credsReads (SrcCreds userParameters) ++
    match value (parseCreds W (SrcCreds userParameters)) with
    | inr _ => credsReads (DestCreds userParameters)
    | inl _ => []
    end /\
  calls isSecretRead (trace (handleImages W userParameters)) <= 2.
Proof.
  assert (Hf : forall c, List.filter isSecretRead (credsReads c) = credsReads c).
  { intros c. unfold credsReads. by case_decide. }
  assert (Hl : forall c, length (credsReads c) <= 1).
  { intros c. unfold credsReads. case_decide; simpl; lia. }
  pose proof (Hl (SrcCreds userParameters)) as Hls.
  pose proof (Hl (DestCreds userParameters)) as Hld.
  unfold calls.
  run_cases W userParameters; unfold resolvedTrace;
    rewrite ?List.filter_app, ?Hf;
    match goal with
    | Hsrc : (parseCreds W (SrcCreds userParameters)).1 = _ |- _ =>
        rewrite Hsrc
    end; simpl; rewrite ?app_nil_r;
    (split; [reflexivity|rewrite ?length_app; lia]).
Qed.

(** X16. [handleImages] returns [nil] exactly when every step succeeded:
    both credentials resolved, both references parsed, both contexts and
    the policy context were built, and the engine, called with the
    destination and source so obtained, reported no error. *)
Theorem handleImages_success_iff (W : World) (userParameters : UserParameters) :
  value (handleImages W userParameters) = None <->
  exists srcCreds destCreds,
    value (parseCreds W (SrcCreds userParameters)) = inr srcCreds /\
    value (parseCreds W (DestCreds userParameters)) = inr destCreds /\
    parseImageNameError W (SrcImage userParameters) = None /\
    parseImageNameError W (DestImage userParameters) = None /\
    systemContextError W
      (SetCreds srcCreds (NewImageOpts (SrcImage userParameters))) = None /\
    systemContextError W
      (SetCreds destCreds (NewImageOpts (DestImage userParameters))) = None /\
    policyContextError W = None /\
    copyImageError W
      (ParsedReference (DestImage userParameters))
      (ParsedReference (SrcImage userParameters))
      (BuiltContext (SetCreds destCreds (NewImageOpts (DestImage userParameters))))
      (BuiltContext (SetCreds srcCreds (NewImageOpts (SrcImage userParameters))))
    = None.
Proof.
  run_cases W userParameters; unfold srcOptions, destOptions in *;
    (split;
     [ intros Hnone; try discriminate
     | intros (sc' & dc' & Hsc & Hdc & Hps & Hpd & Hcs & Hcd & Hpol & Hcopy);
       try congruence ]).
  - exists sc, dc. repeat (split; [assumption|]).
    destruct (copyImageError W _ _ _ _); [discriminate|reflexivity].
  - assert (sc' = sc) as -> by congruence.
    assert (dc' = dc) as -> by congruence.
    by rewrite Hcopy.
Qed.

Lemma handleImages_success_iff_witness :
  value (handleImages demoWorld scenarioParameters) = None.
Proof.
  apply (proj2 (handleImages_success_iff demoWorld scenarioParameters)).
  exists "u:p", "". repeat split.
Defined.

(** X17. The only line [handleImages] logs is the one naming the two
    images, and it logs it exactly when both credentials resolved; no
    log line of [handleImages] is built from a resolved credential. *)
Theorem handleImages_log_lines (W : World) (userParameters : UserParameters)
    (line : string) :
  Log line ∈ trace (handleImages W userParameters) <->
  line = "SrcImage: " +:+ SrcImage userParameters +:+
         " DestImage: " +:+ DestImage userParameters /\
  exists srcCreds destCreds,
    value (parseCreds W (SrcCreds userParameters)) = inr srcCreds /\
    value (parseCreds W (DestCreds userParameters)) = inr destCreds.
Proof.
  pose proof (elem_of_credsReads (Log line) (SrcCreds userParameters)) as Hes.
  pose proof (elem_of_credsReads (Log line) (DestCreds userParameters)) as Hed.
  run_cases W userParameters; unfold resolvedTrace, imagesLogLine;
    rewrite ?elem_of_app, ?elem_of_cons, ?elem_of_nil;
    (split;
     [ intros Hin;
       repeat match type of Hin with
         | _ \/ _ => destruct Hin as [Hin|Hin]
         end;
       try (apply Hes in Hin); try (apply Hed in Hin);
       try discriminate; try contradiction;
       injection Hin as ->; eauto
     | intros (-> & sc' & dc' & Hsc & Hdc); try congruence; auto 10 ]).
Qed.

Lemma handleImages_copy_once (W : World) (up : UserParameters) :
  calls isCopyImage (trace (handleImages W up)) <= 1.
Proof.
  destruct (calls_resolvedTrace isCopyImage up) as (Hc & Hcs & Hcd); [done..|].
  run_cases W up; rewrite ?calls_app, ?Hc, ?Hcs, ?Hcd; unfold calls; simpl; lia.
Qed.

Lemma cfnHandler_skip (W : World) (event : Event) :
  RequestType event <> RequestCreate -> RequestType event <> RequestUpdate ->
  cfnHandler W event
  = ((PhysicalResourceID event, ∅, None),
     [Log ("Event: " +:+ DumpsEvent W event)]).
Proof.
  intros Hc Hu. unfold cfnHandler.
  case_decide; [reflexivity|]. case_decide as Hcu; [|reflexivity].
  destruct Hcu; contradiction.
Qed.

(** X18. Whatever the request type and the outcome, [cfnHandler] gives
    back the physical resource identifier of the event and an empty data
    map.  It returns an error only for a [Create] or [Update] event, and
    the error is the one [handleImages] returned, unchanged. *)
Theorem cfnHandler_echo (W : World) (event : Event) :
  (value (cfnHandler W event)).1 = (PhysicalResourceID event, ∅) /\
  (forall e, (value (cfnHandler W event)).2 = Some e ->
     (RequestType event = RequestCreate \/ RequestType event = RequestUpdate) /\
     value (handleImages W (eventParameters W event)) = Some e).
Proof.
  destruct (decide (RequestType event = RequestCreate \/
                    RequestType event = RequestUpdate)) as [Hcopy|Hskip].
  - rewrite cfnHandler_copy by done. split; [reflexivity|].
    intros e He. split; [exact Hcopy|exact He].
  - rewrite cfnHandler_skip by tauto. split; [reflexivity|]. discriminate.
Qed.

(** X19. A request type other than [Create] and [Update], [Delete] or
    one the handler has never heard of, succeeds with one log line as its
    only effect. *)
Theorem cfnHandler_other_request (W : World) (event : Event) :
  RequestType event <> RequestCreate -> RequestType event <> RequestUpdate ->
  value (cfnHandler W event) = (PhysicalResourceID event, ∅, None) /\
  trace (cfnHandler W event) = [Log ("Event: " +:+ DumpsEvent W event)].
Proof.
  intros Hc Hu. rewrite cfnHandler_skip by done. split; reflexivity.
Qed.

(** An event of a request type CloudFormation does not have. *)
Lemma cfnHandler_other_request_witness :
  cfnHandler cfnWorld (mkEvent "Replace" "res-1" "scenario")
  = (("res-1", ∅, None), [Log "Event: Replace"]).
Proof.
  destruct (cfnHandler_other_request cfnWorld
              (mkEvent "Replace" "res-1" "scenario")) as [Hvalue Htrace];
    [discriminate..|].
  apply injective_projections; [exact Hvalue|exact Htrace].
Defined.

Lemma cfnHandler_calls (W : World) (p : Effect -> bool) (event : Event) :
  (forall line, p (Log line) = false) ->
  calls p (trace (cfnHandler W event))
  <= calls p (trace (handleImages W (eventParameters W event))).
Proof.
  intros Hlog.
  destruct (decide (RequestType event = RequestCreate \/
                    RequestType event = RequestUpdate)) as [Hcopy|Hskip].
  - rewrite cfnHandler_copy by done.
    change (calls p
              (Log ("Event: " +:+ DumpsEvent W event)
               :: Log ("Event: " +:+ DumpsEvent W event)
               :: trace (handleImages W (eventParameters W event)))
            <= calls p (trace (handleImages W (eventParameters W event)))).
    rewrite !calls_cons, !Hlog. lia.
  - rewrite cfnHandler_skip by tauto.
    change (calls p [Log ("Event: " +:+ DumpsEvent W event)]
            <= calls p (trace (handleImages W (eventParameters W event)))).
    rewrite calls_cons, Hlog. change (calls p []) with 0. lia.
Qed.

Lemma lambda_Start_count {Ev : Type} (f : Trace -> nat)
    (decode : string -> Ev) (handler : Ev -> M Response)
    (payloads : list string) :
  f [] = 0 -> (forall t1 t2, f (t1 ++ t2) = f t1 + f t2) ->
  (forall event, f (trace (handler event)) <= 1) ->
  f (trace (lambda_Start decode handler payloads)) <= length payloads /\
  ((forall event, f (trace (handler event)) = 1) ->
   f (trace (lambda_Start decode handler payloads)) = length payloads).
Proof.
  intros Hnil Happ Hle. induction payloads as [|q rest [IHle IHeq]].
  - cbn [lambda_Start]. rewrite ret_trace, Hnil. split; [simpl; lia|done].
  - cbn [lambda_Start length].
    rewrite !bind_trace, ret_trace, !Happ, Hnil.
    specialize (Hle (decode q)). split; [lia|].
    intros Heq. rewrite Heq, IHeq by done. lia.
Qed.

(** X20. The provisioning flow never calls the job-control API, and it
    calls the engine at most once per invocation. *)
Theorem customResource_no_job_calls (W : World) (payloads : list string) :
  calls isPutJobSuccess (trace (customResource W payloads)) = 0 /\
  calls isPutJobFailure (trace (customResource W payloads)) = 0 /\
  calls isCopyImage (trace (customResource W payloads)) <= length payloads.
Proof.
  assert (Hjob : forall p, (forall line, p (Log line) = false) ->
            (forall up, calls p (trace (handleImages W up)) = 0) ->
            calls p (trace (customResource W payloads)) = 0).
  { intros p Hlog Hzero. apply lambda_Start_calls. intros event.
    rewrite bind_trace, ret_trace, app_nil_r.
    pose proof (cfnHandler_calls W p event Hlog) as Hle.
    rewrite Hzero in Hle. lia. }
  split; [|split].
  - apply Hjob; [done|]. intros up. apply handleImages_no_report.
  - apply Hjob; [done|]. intros up. apply handleImages_no_report.
  - apply (lambda_Start_count (calls isCopyImage)).
    + reflexivity.
    + apply calls_app.
    + intros event. rewrite bind_trace, ret_trace, app_nil_r.
      etrans; [apply cfnHandler_calls; done|apply handleImages_copy_once].
Qed.

Lemma calls_nil (p : Effect -> bool) : calls p [] = 0.
Proof. reflexivity. Qed.

Lemma codePipelineHandler_counts (W : World) (event : CodePipelineJobEvent) :
  calls isPutJobSuccess (trace (codePipelineHandler W event))
  = match value (handleImages W (jobParameters W event)) with
    | Some _ => 0
    | None => 1
    end /\
  calls isPutJobFailure (trace (codePipelineHandler W event))
  = match value (handleImages W (jobParameters W event)) with
    | Some _ => 1
    | None => 0
    end /\
  calls isCopyImage (trace (codePipelineHandler W event)) <= 1.
Proof.
  destruct (handleImages_no_report W (jobParameters W event)) as [Hs Hf].
  pose proof (handleImages_copy_once W (jobParameters W event)) as Hc.
  rewrite codePipelineHandler_trace. unfold jobReport.
  rewrite !calls_cons, !calls_app, Hs, Hf.
  destruct (value (handleImages W (jobParameters W event))) as [e|].
  - destruct (putJobFailureResultError W _ _);
      rewrite !calls_cons, ?calls_nil;
      cbn [isPutJobSuccess isPutJobFailure isCopyImage];
      (split; [reflexivity|split; [reflexivity|lia]]).
  - destruct (putJobSuccessResultError W _ _);
      rewrite !calls_cons, ?calls_nil;
      cbn [isPutJobSuccess isPutJobFailure isCopyImage];
      (split; [reflexivity|split; [reflexivity|lia]]).
Qed.

(** X21. Every pipeline invocation sends exactly one report: success
    and failure calls together are one, whether or not the report could
    be delivered (no second attempt).  The report is the success report
    exactly when [handleImages] returned [nil].  The engine is called at
    most once. *)
Theorem pipeline_one_report (W : World) (event : CodePipelineJobEvent) :
  calls isPutJobSuccess (trace (codePipelineHandler W event))
  + calls isPutJobFailure (trace (codePipelineHandler W event)) = 1 /\
  (calls isPutJobSuccess (trace (codePipelineHandler W event)) = 1 <->
   value (handleImages W (jobParameters W event)) = None) /\
  calls isCopyImage (trace (codePipelineHandler W event)) <= 1.
Proof.
  destruct (codePipelineHandler_counts W event) as (-> & -> & Hcopy).
  destruct (value (handleImages W (jobParameters W event))) as [e|];
    (split; [reflexivity|split; [split; done|exact Hcopy]]).
Qed.

(** X22. What is logged when a report cannot be delivered: the last
    effect is a log line.  For an undelivered success report the line
    carries the text of the delivery error; for an undelivered failure
    report it carries the text of the copy error again, and the text of
    the delivery error appears nowhere. *)
Theorem pipeline_delivery_failure (W : World) (event : CodePipelineJobEvent)
    (text : string) :
  (value (handleImages W (jobParameters W event)) = None ->
   putJobSuccessResultError W (JobID event)
     (successSummary (jobParameters W event)) = Some text ->
   last (trace (codePipelineHandler W event))
   = Some (Log ("putting job success results failed: " +:+ text))) /\
  (forall e,
     value (handleImages W (jobParameters W event)) = Some e ->
     putJobFailureResultError W (JobID event) (Error e) = Some text ->
     last (trace (codePipelineHandler W event))
     = Some (Log ("putting job failure results failed: " +:+ Error e))).
Proof.
  rewrite codePipelineHandler_trace. unfold jobReport. split.
  - intros -> ->. rewrite !last_cons, last_app. reflexivity.
  - intros e -> ->. rewrite !last_cons, last_app. reflexivity.
Qed.

(** Reports that cannot be delivered, after a copy that worked and after
    one that did not. *)
Lemma pipeline_delivery_failure_witness :
  last (trace (codePipelineHandler flakyWorld (mkJobEvent "job-1" "scenario")))
  = Some (Log "putting job success results failed: ThrottlingException") /\
  last (trace (codePipelineHandler flakyWorld (mkJobEvent "job-1" "broken")))
  = Some (Log "putting job failure results failed: copy image failed: manifest unknown").
Proof.
  split.
  - apply (proj1 (pipeline_delivery_failure flakyWorld
                    (mkJobEvent "job-1" "scenario") "ThrottlingException"));
      reflexivity.
  - apply (proj2 (pipeline_delivery_failure flakyWorld
                    (mkJobEvent "job-1" "broken") "ThrottlingException")
             (mkError CopyError "copy image failed: manifest unknown"));
      reflexivity.
Defined.

(** X23. A process in the pipeline flow sends as many reports as it
    serves invocations, and calls the engine at most that often. *)
Theorem codePipeline_reports (W : World) (payloads : list string) :
  calls isPutJobSuccess (trace (codePipeline W payloads))
  + calls isPutJobFailure (trace (codePipeline W payloads))
  = length payloads /\
  calls isCopyImage (trace (codePipeline W payloads)) <= length payloads.
Proof.
  split.
  - apply (lambda_Start_count
             (fun t => calls isPutJobSuccess t + calls isPutJobFailure t)).
    + reflexivity.
    + intros t1 t2. rewrite !calls_app. lia.
    + intros event. rewrite bind_trace, ret_trace, app_nil_r.
      destruct (codePipelineHandler_counts W event) as (-> & -> & _).
      destruct (value (handleImages W _)); simpl; lia.
    + intros event. rewrite bind_trace, ret_trace, app_nil_r.
      destruct (codePipelineHandler_counts W event) as (-> & -> & _).
      destruct (value (handleImages W _)); reflexivity.
  - apply (lambda_Start_count (calls isCopyImage)).
    + reflexivity.
    + apply calls_app.
    + intros event. rewrite bind_trace, ret_trace, app_nil_r.
      apply codePipelineHandler_counts.
Qed.
